(** * Items catalogue: search, pagination, statistics and the two caches

    A shallow embedding of the back end of the items catalogue:

    - [services/searchService.js]: [filterItems];
    - [services/statsService.js]: [calculateStats], [getCachedStats],
      [invalidateCache], [initFileWatcher];
    - [routes/items.js]: [getItems] and the handlers of [GET /items],
      [GET /items/:id] and [GET /stats].

    Conventions of the embedding.

    - A JavaScript string is a sequence of UTF-16 code units.  The model keeps
      the strings whose code units are below 256 (the Latin-1 block), one
      [ascii] per code unit; [trim], [toLowerCase] and [includes] are exact on
      that fragment and the fragment is closed under them.
    - A JavaScript number is modelled by [number]: [NaN], the two infinities
      and the finite values as exact rationals.  Rounding of binary64 and the
      sign of zero are not modelled.
    - An [async] function is a resumption ([Async]): it runs synchronously up
      to an [await] on file I/O, and is resumed later with the outcome of the
      read.  Module-level variables and the host (clock, timers, watchers,
      console) live in one [World] record that is threaded through.
    - The model of the host is partial in three places, and the statements
      keep to what is true of the code there.  [fs.watch] is modelled as
      returning a watcher; in Node it throws when the data file is missing,
      so a statement about the answer of a call that may open the watcher
      assumes that a watcher is open already, or says that [fs.watch]
      succeeds.  A query parameter is absent or one string, and the data
      file is malformed or holds an array of records.  Integers are exact,
      where binary64 rounds beyond the safe integers; a statement about the
      text of an integer is made for safe integers. *)

From Stdlib Require Import ZArith QArith Qround Qabs Lia Lqa List Ascii String.
From stdpp Require Import base decidable option list gmap strings.

Open Scope Z_scope.

(* ================================================================== *)
(** * JavaScript strings *)
(* ================================================================== *)

Module JSString.

(** Code units that [String.prototype.trim] strips: WhiteSpace and
    LineTerminator restricted to code units below 256, that is TAB, LF, VT,
    FF, CR, SPACE and NO-BREAK SPACE. *)
Definition isWhiteSpace (c : ascii) : bool :=
  let n := N_of_ascii c in
  ((9 <=? n) && (n <=? 13) || (n =? 32) || (n =? 160))%N.

(** Default case conversion of one code unit: A-Z and the Latin-1 capitals
    U+00C0..U+00DE (except the multiplication sign U+00D7) move up by 32. *)
Definition toLowerCase_unit (c : ascii) : ascii :=
  let n := N_of_ascii c in
  if ((65 <=? n) && (n <=? 90) ||
      (192 <=? n) && (n <=? 222) && negb (n =? 215))%N
  then ascii_of_N (n + 32) else c.

(** [s.toLowerCase()] *)
Fixpoint toLowerCase (s : string) : string :=
  match s with
  | EmptyString => EmptyString
  | String c s' => String (toLowerCase_unit c) (toLowerCase s')
  end.

(** [s.trimStart()] *)
Fixpoint trimStart (s : string) : string :=
  match s with
  | EmptyString => EmptyString
  | String c s' => if isWhiteSpace c then trimStart s' else s
  end.

Definition isEmpty (s : string) : bool :=
  match s with EmptyString => true | String _ _ => false end.

(** [s.trimEnd()] *)
Fixpoint trimEnd (s : string) : string :=
  match s with
  | EmptyString => EmptyString
  | String c s' =>
      let r := trimEnd s' in
      if isWhiteSpace c && isEmpty r then EmptyString else String c r
  end.

(** [s.trim()] *)
Definition trim (s : string) : string := trimEnd (trimStart s).

(** [s.startsWith(t)] *)
Fixpoint startsWith (s t : string) {struct t} : bool :=
  match t, s with
  | EmptyString, _ => true
  | String _ _, EmptyString => false
  | String c t', String d s' => if ascii_dec c d then startsWith s' t' else false
  end.

(** [s.includes(t)]: some index of [s] at which [t] occurs. *)
Fixpoint includes (s t : string) : bool :=
  startsWith s t ||
  match s with
  | EmptyString => false
  | String _ s' => includes s' t
  end.

(** JavaScript truthiness of a string: only the empty string is falsy. *)
Definition truthy (s : string) : bool := negb (isEmpty s).

(** Every code unit is white space (the empty string included). *)
Fixpoint blank (s : string) : bool :=
  match s with
  | EmptyString => true
  | String c s' => isWhiteSpace c && blank s'
  end.

(** [t] occurs in [s] as a contiguous run of code units. *)
Definition Substring (t s : string) : Prop :=
  exists pre post, s = pre +:+ t +:+ post.

(** [t] is [s] with the white space at both ends taken off. *)
Definition Trimmed (s t : string) : Prop :=
  exists l r, s = l +:+ t +:+ r /\ blank l = true /\ blank r = true /\
    (forall c t', t = String c t' -> isWhiteSpace c = false) /\
    (forall c t', t = t' +:+ String c EmptyString -> isWhiteSpace c = false).

End JSString.
Import JSString.

(* ================================================================== *)
(** * JavaScript numbers *)
(* ================================================================== *)

Module JSNumber.

(** Finite values are exact rationals kept in lowest terms, so that equal
    numbers are equal terms. *)
Inductive number : Type :=
| NaN
| PosInf
| NegInf
| Fin (q : Q).

Definition ofZ (z : Z) : number := Fin (inject_Z z).
Definition ofNat (n : nat) : number := ofZ (Z.of_nat n).

Definition isNaN (x : number) : bool :=
  match x with NaN => true | _ => false end.

(** Sign of a finite value: [Lt], [Eq] or [Gt] against zero. *)
Definition Qsign (q : Q) : comparison := (q ?= 0)%Q.

(** [x + y] *)
Definition add (x y : number) : number :=
  match x, y with
  | NaN, _ | _, NaN => NaN
  | PosInf, NegInf | NegInf, PosInf => NaN
  | PosInf, _ | _, PosInf => PosInf
  | NegInf, _ | _, NegInf => NegInf
  | Fin a, Fin b => Fin (Qred (a + b))
  end.

(** [x - y] *)
Definition sub (x y : number) : number :=
  match x, y with
  | NaN, _ | _, NaN => NaN
  | PosInf, PosInf | NegInf, NegInf => NaN
  | PosInf, _ | _, NegInf => PosInf
  | NegInf, _ | _, PosInf => NegInf
  | Fin a, Fin b => Fin (Qred (a - b))
  end.

(** An infinity of the given sign; a zero factor gives [NaN]. *)
Definition signedInf (positive : bool) (s : comparison) : number :=
  match s with
  | Eq => NaN
  | Gt => if positive then PosInf else NegInf
  | Lt => if positive then NegInf else PosInf
  end.

(** [x * y] *)
Definition mul (x y : number) : number :=
  match x, y with
  | NaN, _ | _, NaN => NaN
  | PosInf, PosInf | NegInf, NegInf => PosInf
  | PosInf, NegInf | NegInf, PosInf => NegInf
  | PosInf, Fin b | Fin b, PosInf => signedInf true (Qsign b)
  | NegInf, Fin b | Fin b, NegInf => signedInf false (Qsign b)
  | Fin a, Fin b => Fin (Qred (a * b))
  end.

(** [x / y].  A zero divisor is taken as [+0]. *)
Definition div (x y : number) : number :=
  match x, y with
  | NaN, _ | _, NaN => NaN
  | (PosInf | NegInf), (PosInf | NegInf) => NaN
  | PosInf, Fin b => match Qsign b with Lt => NegInf | _ => PosInf end
  | NegInf, Fin b => match Qsign b with Lt => PosInf | _ => NegInf end
  | Fin _, (PosInf | NegInf) => Fin 0
  | Fin a, Fin b =>
      match Qsign b with
      | Eq => signedInf true (Qsign a)
      | _ => Fin (Qred (a / b))
      end
  end.

(** [x < y]; any comparison with [NaN] is false. *)
Definition lt (x y : number) : bool :=
  match x, y with
  | NaN, _ | _, NaN => false
  | _, NegInf => false
  | PosInf, _ => false
  | NegInf, _ => true
  | _, PosInf => true
  | Fin a, Fin b => match (a ?= b)%Q with Lt => true | _ => false end
  end.

(** [Math.ceil(x)] *)
Definition Math_ceil (x : number) : number :=
  match x with
  | Fin q => ofZ (Qceiling q)
  | _ => x
  end.

(** The smaller of two numbers, as [Math.min] combines its arguments. *)
Definition min2 (x y : number) : number :=
  match x, y with
  | NaN, _ | _, NaN => NaN
  | _, _ => if lt y x then y else x
  end.

Definition max2 (x y : number) : number :=
  match x, y with
  | NaN, _ | _, NaN => NaN
  | _, _ => if lt x y then y else x
  end.

(** [Math.min(...xs)]: [+Infinity] when called without arguments. *)
Definition Math_min (xs : list number) : number := fold_left min2 xs PosInf.

(** [Math.max(...xs)]: [-Infinity] when called without arguments. *)
Definition Math_max (xs : list number) : number := fold_left max2 xs NegInf.

(** [ToIntegerOrInfinity]: [NaN] becomes 0, finite values are truncated
    towards zero, the infinities are kept. *)
Inductive integerOrInf : Type :=
| IPosInf
| INegInf
| IInt (z : Z).

Definition Qtruncate (q : Q) : Z :=
  if Qle_bool 0 q then Qfloor q else Qceiling q.

Definition ToIntegerOrInfinity (x : number) : integerOrInf :=
  match x with
  | NaN => IInt 0
  | PosInf => IPosInf
  | NegInf => INegInf
  | Fin q => IInt (Qtruncate q)
  end.

(** Order on numbers other than [NaN]. *)
Definition le (x y : number) : Prop :=
  match x, y with
  | NaN, _ | _, NaN => False
  | NegInf, _ => True
  | _, PosInf => True
  | Fin a, Fin b => (a <= b)%Q
  | _, _ => False
  end.

End JSNumber.
Import JSNumber.

(* ================================================================== *)
(** * Number parsing and formatting *)
(* ================================================================== *)

Module JSParse.

Definition digit_of (c : ascii) : option N :=
  let n := N_of_ascii c in
  if ((48 <=? n) && (n <=? 57))%N then Some (n - 48)%N else None.

(** The longest run of decimal digits at the start of [s], and the rest. *)
Fixpoint scanDigits (s : string) : list N * string :=
  match s with
  | EmptyString => ([], EmptyString)
  | String c s' =>
      match digit_of c with
      | Some d => let (ds, r) := scanDigits s' in (d :: ds, r)
      | None => ([], s)
      end
  end.

(** Mathematical value of a run of decimal digits. *)
Definition digitsValue (ds : list N) : N :=
  fold_left (fun acc d => acc * 10 + d)%N ds 0%N.

(** An optional sign: [true] when the string starts with a minus. *)
Definition scanSign (s : string) : bool * string :=
  match s with
  | String "-" r => (true, r)
  | String "+" r => (false, r)
  | _ => (false, s)
  end.

Definition applySign (negative : bool) (z : Z) : Z :=
  if negative then - z else z.

(** [parseInt(s, 10)] *)
Definition parseInt (s : string) : number :=
  let (negative, s2) := scanSign (trimStart s) in
  let (ds, _) := scanDigits s2 in
  match ds with
  | [] => NaN
  | _ => ofZ (applySign negative (Z.of_N (digitsValue ds)))
  end.

(** A hexadecimal digit. *)
Definition hexDigit_of (c : ascii) : option N :=
  let n := N_of_ascii c in
  if ((48 <=? n) && (n <=? 57))%N then Some (n - 48)%N
  else if ((97 <=? n) && (n <=? 102))%N then Some (n - 87)%N
  else if ((65 <=? n) && (n <=? 70))%N then Some (n - 55)%N
  else None.

Fixpoint scanHexDigits (s : string) : list N :=
  match s with
  | EmptyString => []
  | String c s' =>
      match hexDigit_of c with
      | Some d => d :: scanHexDigits s'
      | None => []
      end
  end.

Definition hexValue (ds : list N) : N :=
  fold_left (fun acc d => acc * 16 + d)%N ds 0%N.

(** [parseInt(s)] without a radix: base 16 after [0x] or [0X], base 10
    otherwise. *)
Definition parseInt_noRadix (s : string) : number :=
  let (negative, s2) := scanSign (trimStart s) in
  let decimal :=
    let (ds, _) := scanDigits s2 in
    match ds with
    | [] => NaN
    | _ => ofZ (applySign negative (Z.of_N (digitsValue ds)))
    end in
  match s2 with
  | String "0" (String x r) =>
      if (N_of_ascii x =? 120)%N || (N_of_ascii x =? 88)%N then
        match scanHexDigits r with
        | [] => NaN
        | ds => ofZ (applySign negative (Z.of_N (hexValue ds)))
        end
      else decimal
  | _ => decimal
  end.

(** ExponentPart: [e] or [E], an optional sign and at least one digit.
    When it is not complete the literal ends before it. *)
Definition scanExponent (s : string) : Z :=
  match s with
  | String c r =>
      if (N_of_ascii c =? 101)%N || (N_of_ascii c =? 69)%N then
        let (negative, r2) := scanSign r in
        let (ds, _) := scanDigits r2 in
        match ds with
        | [] => 0
        | _ => applySign negative (Z.of_N (digitsValue ds))
        end
      else 0
  | EmptyString => 0
  end.

(** [mant * 10^e] in lowest terms. *)
Definition scale10 (mant e : Z) : Q :=
  if 0 <=? e then Qred (inject_Z (mant * 10 ^ e))
  else Qred (Qmake mant (Z.to_pos (10 ^ (- e)))).

(** [parseFloat(s)]: the longest prefix of the left-trimmed string that is a
    StrDecimalLiteral. *)
Definition parseFloat_string (s : string) : number :=
  let (negative, s2) := scanSign (trimStart s) in
  if startsWith s2 "Infinity" then (if negative then NegInf else PosInf)
  else
    let (ip, r1) := scanDigits s2 in
    let '(fp, r2, ok) :=
      match r1 with
      | String "." r =>
          let (fp, r') := scanDigits r in
          match ip, fp with
          | [], [] => ([], r1, false)
          | _, _ => (fp, r', true)
          end
      | _ => ([], r1, match ip with [] => false | _ => true end)
      end in
    if ok then
      let flen := Z.of_nat (length fp) in
      let mant := Z.of_N (digitsValue (ip ++ fp)) in
      Fin (scale10 (applySign negative mant) (scanExponent r2 - flen))
    else NaN.

(** Decimal digits of [n], most significant first; [fuel] bounds their
    number. *)
Fixpoint digitsOf (fuel : nat) (n : N) (acc : list N) : list N :=
  match fuel with
  | O => acc
  | S fuel' =>
      let acc' := (n mod 10)%N :: acc in
      if (n / 10 =? 0)%N then acc' else digitsOf fuel' (n / 10)%N acc'
  end.

Definition decimalDigits (n : N) : list N :=
  digitsOf (S (N.to_nat (N.log2 n))) n [].

Definition digitChar (d : N) : ascii := ascii_of_N (48 + d).

Fixpoint stringOfDigits (ds : list N) : string :=
  match ds with
  | [] => EmptyString
  | d :: ds' => String (digitChar d) (stringOfDigits ds')
  end.

(** The integer [n] for which [n / 100 - x] is closest to zero, the larger
    one when two are as close ([x] is not negative). *)
Definition nearestHundredth (x : Q) : N := Z.to_N (Qfloor (x * 100 + (1 # 2))).

(** [x.toFixed(2)] for a finite [x] of magnitude below [10^21]: the digits
    of the nearest hundredth, padded on the left with zeros to three digits,
    with the point before the last two and the sign in front. *)
Definition toFixed2 (x : Q) : string :=
  let negative := match Qsign x with Lt => true | _ => false end in
  let m := decimalDigits (nearestHundredth (Qabs x)) in
  let m := repeat 0%N (3 - length m) ++ m in
  let k := length m in
  let a := firstn (k - 2) m in
  let b := skipn (k - 2) m in
  ((if negative then "-" else EmptyString) +:+
   stringOfDigits a +:+ "." +:+ stringOfDigits b)%string.

End JSParse.
Import JSParse.

(* ================================================================== *)
(** * Data model *)
(* ================================================================== *)

Global Instance Q_eq_dec : EqDecision Q.
Proof. solve_decision. Defined.

Global Instance number_eq_dec : EqDecision number.
Proof. solve_decision. Defined.

(** JavaScript values that are not arrays. *)
Inductive JSValue : Type :=
| VUndefined
| VNull
| VBool (b : bool)
| VNumber (n : number)
| VString (s : string)
| VObject.

Global Instance JSValue_eq_dec : EqDecision JSValue.
Proof. solve_decision. Defined.

(** A record of [data/items.json].  The text fields may be missing from the
    record ([None] is JavaScript's [undefined]); the price is whatever value
    the record holds under [price]. *)
Record Item := mkItem {
  id : Z;
  name : option string;
  description : option string;
  category : option string;
  price : JSValue
}.

Global Instance Item_eq_dec : EqDecision Item.
Proof. solve_decision. Defined.

(** [parseFloat(v)] is [parseFloat] of [ToString(v)].  A number prints to a
    literal that reads back as the same number; [undefined], [null], the
    booleans and [[object Object]] do not start with a decimal literal. *)
Definition parseFloat (v : JSValue) : number :=
  match v with
  | VString s => parseFloat_string s
  | VNumber (Fin q) => Fin (Qred q)
  | VNumber n => n
  | VUndefined | VNull | VBool _ | VObject => NaN
  end.

(** [parseFloat(x.toFixed(2))].  [toFixed] prints [NaN] and the infinities by
    name and a magnitude of [10^21] or more in exponent notation
    ([ToString]); all of them read back as [x]. *)
Definition roundTo2 (x : number) : number :=
  match x with
  | Fin q =>
      if Qle_bool (inject_Z (10 ^ 21)) (Qabs q) then x
      else parseFloat_string (toFixed2 q)
  | _ => x
  end.

(* ================================================================== *)
(** * services/searchService.js *)
(* ================================================================== *)

(** [field || ''] *)
Definition or_empty (field : option string) : string :=
  match field with
  | Some s => if truthy s then s else EmptyString
  | None => EmptyString
  end.

(** The callback given to [items.filter]. *)
Definition matchesTerm (searchTerm : string) (item : Item) : bool :=
  let name := toLowerCase (or_empty (name item)) in
  let description := toLowerCase (or_empty (description item)) in
  let category := toLowerCase (or_empty (category item)) in
  includes name searchTerm ||
  includes description searchTerm ||
  includes category searchTerm.

Definition filterItems (items : list Item) (query : string) : list Item :=
  if negb (truthy query) || negb (truthy (trim query)) then items
  else
    let searchTerm := trim (toLowerCase query) in
    List.filter (matchesTerm searchTerm) items.

(* ================================================================== *)
(** * Plain objects used as maps *)
(* ================================================================== *)

Module JSObject.

(** The primitive values that end up in the [categories] object. *)
Inductive Prim : Type :=
| PNumber (n : number)
| PString (s : string).

Global Instance Prim_eq_dec : EqDecision Prim.
Proof. solve_decision. Defined.

(** An object literal: its own properties.  Its prototype is
    [Object.prototype]. *)
Abbreviation Obj := (gmap string Prim).

(** What a property read finds on [Object.prototype]: one of its methods,
    or, through the [__proto__] getter, [Object.prototype] itself. *)
Inductive Inherited : Type :=
| IFunction (fname : string)
| IObjectPrototype.

Definition ObjectPrototype_methods : list string :=
  [ "__defineGetter__"; "__defineSetter__"; "hasOwnProperty";
    "__lookupGetter__"; "__lookupSetter__"; "isPrototypeOf";
    "propertyIsEnumerable"; "toString"; "valueOf"; "toLocaleString" ]%string.

Definition ObjectPrototype_get (key : string) : option Inherited :=
  if decide (key = "__proto__"%string) then Some IObjectPrototype
  else if decide (key = "constructor"%string) then Some (IFunction "Object")
  else if decide (key ∈ ObjectPrototype_methods) then Some (IFunction key)
  else None.

(** The property names an object literal inherits. *)
Definition inheritedName (key : string) : bool :=
  match ObjectPrototype_get key with Some _ => true | None => false end.

(** Result of the read [obj[key]]. *)
Inductive Read : Type :=
| RUndefined
| ROwn (p : Prim)
| RInherited (i : Inherited).

(** [obj[key]]: the own property, else the inherited one, else
    [undefined]. *)
Definition get (obj : Obj) (key : string) : Read :=
  match obj !! key with
  | Some p => ROwn p
  | None =>
      match ObjectPrototype_get key with
      | Some i => RInherited i
      | None => RUndefined
      end
  end.

(** [obj[key] = v] for a primitive [v].  Without an own property of that
    name the assignment to [__proto__] reaches the setter of
    [Object.prototype], which ignores primitives; every other name gets an
    own property. *)
Definition set (obj : Obj) (key : string) (v : Prim) : Obj :=
  match obj !! key with
  | Some _ => <[key := v]> obj
  | None =>
      if decide (key = "__proto__"%string) then obj else <[key := v]> obj
  end.

(** [ToString] of an inherited value, as Node prints it. *)
Definition Inherited_toString (i : Inherited) : string :=
  match i with
  | IFunction fname => ("function " +:+ fname +:+ "() { [native code] }")%string
  | IObjectPrototype => "[object Object]"%string
  end.

End JSObject.
Import JSObject.

(* ================================================================== *)
(** * services/statsService.js: the aggregator *)
(* ================================================================== *)

Record Stats := mkStats {
  totalItems : nat;
  averagePrice : number;
  minPrice : number;
  maxPrice : number;
  categories : Obj
}.

Global Instance Stats_eq_dec : EqDecision Stats.
Proof. solve_decision. Defined.

(** The argument of [calculateStats]: an array of records, or any other
    value. *)
Inductive StatsArg : Type :=
| ArgArray (items : list Item)
| ArgOther (v : JSValue).

Definition zeroStats : Stats :=
  {| totalItems := 0; averagePrice := ofZ 0; minPrice := ofZ 0;
     maxPrice := ofZ 0; categories := ∅ |}.

(** Truthiness of a number: zero and [NaN] are falsy. *)
Definition number_truthy (n : number) : bool :=
  match n with
  | NaN => false
  | Fin q => negb (Qeq_bool q 0)
  | _ => true
  end.

(** [item.category || 'uncategorized'] *)
Definition categoryKey (item : Item) : string :=
  match category item with
  | Some s => if truthy s then s else "uncategorized"%string
  | None => "uncategorized"%string
  end.

(** [(read || 0) + 1]: addition on a number, concatenation on anything
    else that is truthy. *)
Definition plusOne (read : Read) : Prim :=
  match read with
  | RUndefined => PNumber (add (ofZ 0) (ofZ 1))
  | ROwn (PNumber n) =>
      if number_truthy n then PNumber (add n (ofZ 1))
      else PNumber (add (ofZ 0) (ofZ 1))
  | ROwn (PString s) =>
      if truthy s then PString (s +:+ "1") else PNumber (add (ofZ 0) (ofZ 1))
  | RInherited i => PString (Inherited_toString i +:+ "1")
  end.

(** One turn of the [forEach] that fills [categories]. *)
Definition countCategory (categories : Obj) (item : Item) : Obj :=
  let category := categoryKey item in
  set categories category (plusOne (get categories category)).

(** [items.map(item => parseFloat(item.price)).filter(price => !isNaN(price))] *)
Definition parseablePrices (items : list Item) : list number :=
  List.filter (fun price => negb (isNaN price))
    (List.map (fun item => parseFloat (price item)) items).

Definition calculateStats (arg : StatsArg) : Stats :=
  match arg with
  | ArgOther _ => zeroStats
  | ArgArray items =>
      if (length items =? 0)%nat then zeroStats
      else
        let prices := parseablePrices items in
        let categories := fold_left countCategory items ∅ in
        {| totalItems := length items;
           averagePrice :=
             if (0 <? length prices)%nat
             then roundTo2 (div (fold_left add prices (ofZ 0))
                                (ofNat (length prices)))
             else ofZ 0;
           minPrice := if (0 <? length prices)%nat then Math_min prices else ofZ 0;
           maxPrice := if (0 <? length prices)%nat then Math_max prices else ofZ 0;
           categories := categories |}
  end.

(* ================================================================== *)
(** * The host and the module-level state *)
(* ================================================================== *)

(** What reading [data/items.json] produces: the read is rejected, or it
    yields text that [JSON.parse] refuses, or text that parses to the array
    of records. *)
Inductive FileData : Type :=
| Malformed
| ItemsJSON (items : list Item).

Inductive FileRead : Type :=
| ReadRejected (message : string)
| ReadResolved (data : FileData).

(** A thrown [Error] with its message. *)
Inductive Error : Type :=
| mkError (message : string).

Inductive Result (A : Type) : Type :=
| Ok (a : A)
| Err (e : Error).
Arguments Ok {A} a.
Arguments Err {A} e.

(** Module-level variables of [routes/items.js]. *)
Record ItemsModule := mkItemsModule {
  itemsCache : option (list Item);
  itemsCacheTimestamp : Z
}.

(** Module-level variables of [services/statsService.js].  Timers and
    watchers are referred to by their handles. *)
Record StatsModule := mkStatsModule {
  statsCache : option Stats;
  statsCacheTimestamp : Z;
  cacheTimeout : option nat;
  watcher : option nat
}.

(** The host: the clock read by [Date.now()], the pending timers with their
    due times, the open file watchers, the next free handle, the number of
    [fs.readFile] calls made so far, what a read of the data file yields when
    no other request runs in between, and the console. *)
Record Host := mkHost {
  clock : Z;
  timers : gmap nat Z;
  watchers : gset nat;
  nextHandle : nat;
  reads : nat;
  dataFile : FileRead;
  console : list string
}.

Record World := mkWorld {
  items_js : ItemsModule;
  stats_js : StatsModule;
  host : Host
}.

Definition with_items (f : ItemsModule -> ItemsModule) (w : World) : World :=
  {| items_js := f (items_js w); stats_js := stats_js w; host := host w |}.

Definition with_stats (f : StatsModule -> StatsModule) (w : World) : World :=
  {| items_js := items_js w; stats_js := f (stats_js w); host := host w |}.

Definition with_host (f : Host -> Host) (w : World) : World :=
  {| items_js := items_js w; stats_js := stats_js w; host := f (host w) |}.

(** The state both modules start in. *)
Definition initialItemsModule : ItemsModule :=
  {| itemsCache := None; itemsCacheTimestamp := 0 |}.

Definition initialStatsModule : StatsModule :=
  {| statsCache := None; statsCacheTimestamp := 0;
     cacheTimeout := None; watcher := None |}.

(* ================================================================== *)
(** * Async functions as resumptions *)
(* ================================================================== *)

(** The body of an [async] function.  [Get] and [Put] read and write the
    world, [ReadFile] is [await fs.readFile(DATA_FILE, 'utf8')]: the only
    point at which the function is suspended and other requests, timers and
    watcher callbacks may run.  An [await] on an [async] call of this module
    whose body has settled resumes in the microtask queue of the same turn,
    before any of those, and is no suspension point here. *)
Inductive Async (A : Type) : Type :=
| Ret (a : A)
| Throw (e : Error)
| Get (k : World -> Async A)
| Put (w : World) (k : Async A)
| ReadFile (k : FileRead -> Async A).
Arguments Ret {A} a.
Arguments Throw {A} e.
Arguments Get {A} k.
Arguments Put {A} w k.
Arguments ReadFile {A} k.

Fixpoint bind {A B : Type} (p : Async A) (f : A -> Async B) : Async B :=
  match p with
  | Ret a => f a
  | Throw e => Throw e
  | Get k => Get (fun w => bind (k w) f)
  | Put w k => Put w (bind k f)
  | ReadFile k => ReadFile (fun r => bind (k r) f)
  end.

(** [try { p } catch (error) { handler(error) }] *)
Fixpoint tryCatch {A : Type} (p : Async A) (handler : Error -> Async A) : Async A :=
  match p with
  | Ret a => Ret a
  | Throw e => handler e
  | Get k => Get (fun w => tryCatch (k w) handler)
  | Put w k => Put w (tryCatch k handler)
  | ReadFile k => ReadFile (fun r => tryCatch (k r) handler)
  end.

Global Instance Async_ret : MRet Async := @Ret.
Global Instance Async_bind : MBind Async := fun A B f p => bind p f.
Global Instance Async_fmap : FMap Async := fun A B f p => bind p (fun a => Ret (f a)).

(** A statement that updates the world. *)
Definition modify (f : World -> World) : Async unit :=
  Get (fun w => Put (f w) (Ret tt)).

(** An expression that reads the world. *)
Definition gets {A : Type} (f : World -> A) : Async A :=
  Get (fun w => Ret (f w)).

(** A call in progress: settled with a value or an error, or suspended on
    its read of the data file. *)
Inductive Call (A : Type) : Type :=
| Settled (r : Result A)
| Suspended (k : FileRead -> Async A).
Arguments Settled {A} r.
Arguments Suspended {A} k.

Definition countRead (h : Host) : Host :=
  {| clock := clock h; timers := timers h; watchers := watchers h;
     nextHandle := nextHandle h; reads := S (reads h);
     dataFile := dataFile h; console := console h |}.

(** Run a body up to its next suspension.  Reaching [ReadFile] starts the
    read (it is counted) and suspends. *)
Fixpoint run {A : Type} (p : Async A) (w : World) : World * Call A :=
  match p with
  | Ret a => (w, Settled (Ok a))
  | Throw e => (w, Settled (Err e))
  | Get k => run (k w) w
  | Put w' k => run k w'
  | ReadFile k => (with_host countRead w, Suspended k)
  end.

(** Run a body to its end when nothing else runs in between: every read
    completes with what the data file holds. *)
Fixpoint complete {A : Type} (p : Async A) (w : World) : World * Result A :=
  match p with
  | Ret a => (w, Ok a)
  | Throw e => (w, Err e)
  | Get k => complete (k w) w
  | Put w' k => complete k w'
  | ReadFile k => complete (k (dataFile (host w))) (with_host countRead w)
  end.

(* ================================================================== *)
(** * Host operations *)
(* ================================================================== *)

(** [console.error(...)] and [console.log(...)] *)
Definition console_write (line : string) : Async unit :=
  modify (with_host (fun h =>
    {| clock := clock h; timers := timers h; watchers := watchers h;
       nextHandle := nextHandle h; reads := reads h;
       dataFile := dataFile h; console := console h ++ [line] |})).

(** [setTimeout(callback, delay)]: a fresh handle, due [delay] from now. *)
Definition setTimeout (delay : Z) : Async nat :=
  Get (fun w =>
    let h := host w in
    let handle := nextHandle h in
    Put (with_host (fun _ =>
           {| clock := clock h; timers := <[handle := clock h + delay]> (timers h);
              watchers := watchers h; nextHandle := S handle; reads := reads h;
              dataFile := dataFile h; console := console h |}) w)
        (Ret handle)).

(** [clearTimeout(handle)] *)
Definition clearTimeout (handle : nat) : Async unit :=
  modify (with_host (fun h =>
    {| clock := clock h; timers := delete handle (timers h);
       watchers := watchers h; nextHandle := nextHandle h; reads := reads h;
       dataFile := dataFile h; console := console h |})).

(** [fs.watch(DATA_FILE, { persistent: false }, listener)] *)
Definition fs_watch : Async nat :=
  Get (fun w =>
    let h := host w in
    let handle := nextHandle h in
    Put (with_host (fun _ =>
           {| clock := clock h; timers := timers h;
              watchers := {[handle]} ∪ watchers h; nextHandle := S handle;
              reads := reads h; dataFile := dataFile h; console := console h |}) w)
        (Ret handle)).

(** [watcher.close()] *)
Definition watcher_close (handle : nat) : Async unit :=
  modify (with_host (fun h =>
    {| clock := clock h; timers := timers h;
       watchers := watchers h ∖ {[handle]}; nextHandle := nextHandle h;
       reads := reads h; dataFile := dataFile h; console := console h |})).

(** [JSON.parse(data)] *)
Definition JSON_parse (data : FileData) : Async (list Item) :=
  match data with
  | ItemsJSON items => Ret items
  | Malformed => Throw (mkError "Unexpected token in JSON")
  end.

(** Settling of the promise of [fs.readFile]. *)
Definition readFile : Async FileData :=
  ReadFile (fun r =>
    match r with
    | ReadResolved data => Ret data
    | ReadRejected message => Throw (mkError message)
    end).

(* ================================================================== *)
(** * routes/items.js: the item cache *)
(* ================================================================== *)

Module ItemsRoute.

Definition CACHE_TTL : Z := 30000.

(** [itemsCache && (now - itemsCacheTimestamp) < CACHE_TTL]; an array is
    truthy, [null] is not. *)
Definition cacheValid (m : ItemsModule) (now : Z) : bool :=
  match itemsCache m with
  | Some _ => now - itemsCacheTimestamp m <? CACHE_TTL
  | None => false
  end.

(** The [try]/[catch] block of [getItems]: read, parse, install the new
    snapshot with the time taken at the start of the call. *)
Definition reload (now : Z) : Async (list Item) :=
  tryCatch
    (data ← readFile;
     items ← JSON_parse data;
     modify (with_items (fun _ =>
       {| itemsCache := Some items; itemsCacheTimestamp := now |}));;
     Ret items)
    (fun error =>
       console_write "Error reading items file:";;
       Throw (mkError "Failed to read items data")).

Definition getItems : Async (list Item) :=
  now ← gets (fun w => clock (host w));
  m ← gets items_js;
  match itemsCache m with
  | Some cached =>
      if now - itemsCacheTimestamp m <? CACHE_TTL then Ret cached
      else reload now
  | None => reload now
  end.

End ItemsRoute.

(* ================================================================== *)
(** * services/statsService.js: the stats cache *)
(* ================================================================== *)

Module StatsService.

Definition CACHE_TTL : Z := 60000.

Definition set_cache (c : option Stats) (ts : Z) (m : StatsModule) : StatsModule :=
  {| statsCache := c; statsCacheTimestamp := ts;
     cacheTimeout := cacheTimeout m; watcher := watcher m |}.

Definition set_cacheTimeout (t : option nat) (m : StatsModule) : StatsModule :=
  {| statsCache := statsCache m; statsCacheTimestamp := statsCacheTimestamp m;
     cacheTimeout := t; watcher := watcher m |}.

Definition set_watcher (h : option nat) (m : StatsModule) : StatsModule :=
  {| statsCache := statsCache m; statsCacheTimestamp := statsCacheTimestamp m;
     cacheTimeout := cacheTimeout m; watcher := h |}.

Definition invalidateCache : Async unit :=
  modify (with_stats (set_cache None 0));;
  t ← gets (fun w => cacheTimeout (stats_js w));
  match t with
  | Some handle =>
      clearTimeout handle;;
      modify (with_stats (set_cacheTimeout None))
  | None => Ret tt
  end.

(** The listener given to [fs.watch]. *)
Definition onWatchEvent (eventType : string) : Async unit :=
  if decide (eventType = "change"%string) then
    console_write "Data file changed, invalidating cache...";;
    invalidateCache
  else Ret tt.

Definition initFileWatcher : Async unit :=
  old ← gets (fun w => watcher (stats_js w));
  match old with
  | Some handle => watcher_close handle
  | None => Ret tt
  end;;
  handle ← fs_watch;
  modify (with_stats (set_watcher (Some handle))).

(** The callback given to [setTimeout] in [getCachedStats]. *)
Definition onCacheTimeout : Async unit :=
  modify (with_stats (set_cache None 0)).

(** [statsCache && (now - statsCacheTimestamp) < CACHE_TTL] *)
Definition cacheValid (m : StatsModule) (now : Z) : bool :=
  match statsCache m with
  | Some _ => now - statsCacheTimestamp m <? CACHE_TTL
  | None => false
  end.

(** The part of [getCachedStats] after the validity test. *)
Definition recompute (getItemsFn : Async StatsArg) (now : Z) : Async Stats :=
  items ← getItemsFn;
  let stats := calculateStats items in
  modify (with_stats (set_cache (Some stats) now));;
  w ← gets (fun w => watcher (stats_js w));
  match w with
  | None => initFileWatcher
  | Some _ => Ret tt
  end;;
  t ← gets (fun w => cacheTimeout (stats_js w));
  match t with
  | Some handle => clearTimeout handle
  | None => Ret tt
  end;;
  handle ← setTimeout CACHE_TTL;
  modify (with_stats (set_cacheTimeout (Some handle)));;
  Ret stats.

Definition getCachedStats (getItemsFn : Async StatsArg) : Async Stats :=
  now ← gets (fun w => clock (host w));
  m ← gets stats_js;
  match statsCache m with
  | Some cached =>
      if now - statsCacheTimestamp m <? CACHE_TTL then Ret cached
      else recompute getItemsFn now
  | None => recompute getItemsFn now
  end.

End StatsService.

(* ================================================================== *)
(** * routes/items.js: the handlers *)
(* ================================================================== *)

Module Handlers.

(** [req.query]: each parameter is absent or a string. *)
Record Query := mkQuery {
  page : option string;
  limit : option string;
  q : option string
}.

Record Pagination := mkPagination {
  currentPage : number;
  totalPages : number;
  totalItems : nat;
  itemsPerPage : number
}.

Record ItemsResponse := mkItemsResponse {
  items : list Item;
  pagination : Pagination
}.

(** Index relative to the end when negative, clamped to the array. *)
Definition relativeIndex (len : Z) (i : integerOrInf) : Z :=
  match i with
  | INegInf => 0
  | IPosInf => len
  | IInt r => if r <? 0 then Z.max (len + r) 0 else Z.min r len
  end.

(** [array.slice(start, end)] *)
Definition slice {A : Type} (array : list A) (start end_ : number) : list A :=
  let len := Z.of_nat (length array) in
  let k := relativeIndex len (ToIntegerOrInfinity start) in
  let final := relativeIndex len (ToIntegerOrInfinity end_) in
  let count := Z.max (final - k) 0 in
  firstn (Z.to_nat count) (skipn (Z.to_nat k) array).

(** The handler of [GET /items] once [getItems] has answered.  The defaults
    of the destructuring apply to absent parameters only: [page = 1],
    [limit = 10], [q = ''] (the numbers print as "1" and "10" when
    [parseInt] converts its argument to a string). *)
Definition respond (req : Query) (items : list Item) : ItemsResponse :=
  let page := default "1"%string (page req) in
  let limit := default "10"%string (limit req) in
  let q := default EmptyString (q req) in
  let filteredItems := if truthy q then filterItems items q else items in
  let pageNum := parseInt page in
  let limitNum := parseInt limit in
  let startIndex := mul (sub pageNum (ofZ 1)) limitNum in
  let endIndex := add startIndex limitNum in
  let paginatedItems := slice filteredItems startIndex endIndex in
  {| items := paginatedItems;
     pagination :=
       {| currentPage := pageNum;
          totalPages := Math_ceil (div (ofNat (length filteredItems)) limitNum);
          totalItems := length filteredItems;
          itemsPerPage := limitNum |} |}.

(** [router.get('/items', ...)]: a thrown error goes to [next(error)]. *)
Definition getItemsHandler (req : Query) : Async ItemsResponse :=
  items ← ItemsRoute.getItems;
  Ret (respond req items).

(** [router.get('/stats', ...)] *)
Definition getStatsHandler : Async Stats :=
  StatsService.getCachedStats (ArgArray <$> ItemsRoute.getItems).

(** The answer of [GET /items/:id]: the record, or status 404 with
    [{ error: 'Item not found' }]. *)
Inductive ItemReply : Type :=
| Found (item : Item)
| NotFound.

(** [router.get('/items/:id', ...)]; [===] on numbers, [NaN] equals
    nothing. *)
Definition getItemHandler (idParam : string) : Async ItemReply :=
  items ← ItemsRoute.getItems;
  match List.find (fun i => bool_decide (ofZ (id i) = parseInt_noRadix idParam))
                  items with
  | Some item => Ret (Found item)
  | None => Ret NotFound
  end.

End Handlers.

(* ================================================================== *)
(** * The server: requests in flight, timers and watcher events *)
(* ================================================================== *)

Module Server.

Definition advance (dt : Z) (h : Host) : Host :=
  {| clock := clock h + dt; timers := timers h; watchers := watchers h;
     nextHandle := nextHandle h; reads := reads h;
     dataFile := dataFile h; console := console h |}.

Definition writeFile (r : FileRead) (h : Host) : Host :=
  {| clock := clock h; timers := timers h; watchers := watchers h;
     nextHandle := nextHandle h; reads := reads h;
     dataFile := r; console := console h |}.

(** A due timer runs its callback once and is gone. *)
Definition fireTimer (handle : nat) (w : World) : World :=
  match timers (host w) !! handle with
  | Some due =>
      if due <=? clock (host w)
      then fst (complete (clearTimeout handle;; StatsService.onCacheTimeout) w)
      else w
  | None => w
  end.

(** Every open watcher calls its listener. *)
Definition notifyWatchers (eventType : string) (w : World) : World :=
  foldr (fun _ w' => fst (complete (StatsService.onWatchEvent eventType) w'))
    w (elements (watchers (host w))).

Section Server.

Context {Req A : Type}.

(** The async function the server runs for a request. *)
Variable handler : Req -> Async A.

(** What happens to the server: a request arrives and its call starts, the
    read a suspended call waits for settles, time passes, a timer fires, the
    data file is written to (and the watchers are told). *)
Inductive Event : Type :=
| Invoke (req : Req)
| Settle (i : nat) (r : FileRead)
| Advance (dt : Z)
| Fire (handle : nat)
| FileChanged (r : FileRead).

Record State := mkState {
  world : World;
  calls : list (Call A)
}.

Definition step (s : State) (ev : Event) : State :=
  match ev with
  | Invoke req =>
      let (w, c) := run (handler req) (world s) in
      {| world := w; calls := calls s ++ [c] |}
  | Settle i r =>
      match calls s !! i with
      | Some (Suspended k) =>
          let (w, c) := run (k r) (world s) in
          {| world := w; calls := <[i := c]> (calls s) |}
      | _ => s
      end
  | Advance dt =>
      {| world := with_host (advance dt) (world s); calls := calls s |}
  | Fire handle =>
      {| world := fireTimer handle (world s); calls := calls s |}
  | FileChanged r =>
      {| world := notifyWatchers "change" (with_host (writeFile r) (world s));
         calls := calls s |}
  end.

Definition exec (s : State) (evs : list Event) : State :=
  fold_left step evs s.

(** The calls that are suspended on a read. *)
Definition inFlight (s : State) : nat :=
  length (List.filter
            (fun c => match c with Suspended _ => true | Settled _ => false end)
            (calls s)).

End Server.

Arguments Event Req : clear implicits.
Arguments State A : clear implicits.

End Server.

(** The three routes as one handler. *)
Inductive Request : Type :=
| GetItems (query : Handlers.Query)
| GetItem (idParam : string)
| GetStats.

Inductive Response : Type :=
| ItemsBody (body : Handlers.ItemsResponse)
| ItemBody (body : Handlers.ItemReply)
| StatsBody (body : Stats).

Definition app (req : Request) : Async Response :=
  match req with
  | GetItems query => ItemsBody <$> Handlers.getItemsHandler query
  | GetItem idParam => ItemBody <$> Handlers.getItemHandler idParam
  | GetStats => StatsBody <$> Handlers.getStatsHandler
  end.

Definition initialWorld (file : FileRead) (now : Z) : World :=
  {| items_js := initialItemsModule;
     stats_js := initialStatsModule;
     host := {| clock := now; timers := ∅; watchers := ∅; nextHandle := 0;
                reads := 0; dataFile := file; console := [] |} |}.

(** The worlds the running server can be in. *)
Definition reachable (w : World) : Prop :=
  exists file now evs,
    w = Server.world (Server.exec app
          {| Server.world := initialWorld file now; Server.calls := [] |} evs).

(* ================================================================== *)
(** * Vocabulary of the specification *)
(* ================================================================== *)

(** The text of a field, an absent field counting as the empty string. *)
Definition fieldText (field : option string) : string := default EmptyString field.

(** The record matches the query: the trimmed, lower-cased query occurs in
    the lower-cased name, description or category. *)
Definition Matches (query : string) (item : Item) : Prop :=
  let needle := toLowerCase (trim query) in
  Substring needle (toLowerCase (fieldText (name item))) \/
  Substring needle (toLowerCase (fieldText (description item))) \/
  Substring needle (toLowerCase (fieldText (category item))).

(** Ceiling of a quotient of integers, on the integers. *)
Definition ceilDiv (n d : Z) : Z := - ((- n) / d).

(** A decimal digit. *)
Definition isDigit (d : N) : Prop := (d < 10)%N.

(** A string that does not start with a decimal digit. *)
Definition noDigitAhead (s : string) : Prop := scanDigits s = ([], s).

(** A finite value rounded to the nearest hundredth, ties away from zero. *)
Definition roundHalfAway (q : Q) : Q :=
  Qmake (applySign (match Qsign q with Lt => true | _ => false end)
                   (Qfloor (Qabs q * 100 + (1 # 2)))) 100.

(** A number other than [NaN]. *)
Definition notNaN (x : number) : Prop := isNaN x = false.

(** Sum and arithmetic mean of finite values. *)
Definition Qsum (qs : list Q) : Q := fold_right Qplus 0%Q qs.
Definition Qmean (qs : list Q) : Q := (Qsum qs / inject_Z (Z.of_nat (length qs)))%Q.

(** Number of records filed under [key]. *)
Definition countKey (key : string) (items : list Item) : nat :=
  length (filter (fun item => categoryKey item = key) items).

(** The object holds exactly the counts [cnt]. *)
Definition Counts (obj : Obj) (cnt : string -> nat) : Prop :=
  forall key, obj !! key =
    match cnt key with O => None | S k => Some (PNumber (ofNat (S k))) end.

(** What a call of [getItems] that was suspended on its read does when the
    read settles: it installs and returns the records it read itself, or
    logs and throws. *)
Definition settleItems (now : Z) (r : FileRead) (w : World) : World * Call (list Item) :=
  match r with
  | ReadResolved (ItemsJSON items) =>
      (with_items (fun _ => {| itemsCache := Some items;
                               itemsCacheTimestamp := now |}) w,
       Settled (Ok items))
  | _ =>
      (fst (run (console_write "Error reading items file:") w),
       Settled (Err (mkError "Failed to read items data")))
  end.

(** Outcome of a load that nothing interleaves with. *)
Definition loadOutcome (w : World) : World * Result (list Item) :=
  match dataFile (host w) with
  | ReadResolved (ItemsJSON items) =>
      (with_items (fun _ => {| itemsCache := Some items;
                               itemsCacheTimestamp := clock (host w) |})
         (with_host countRead w),
       Ok items)
  | _ =>
      (fst (run (console_write "Error reading items file:") (with_host countRead w)),
       Err (mkError "Failed to read items data"))
  end.

(** An integer that binary64 holds exactly, as it does its neighbours
    ([Number.isSafeInteger]). *)
Definition safeInteger (z : Z) : Prop := Z.abs z <= 2 ^ 53 - 1.

(** The decimal text of an integer. *)
Definition printInteger (z : Z) : string :=
  (if z <? 0 then "-" else EmptyString) +:+ stringOfDigits (decimalDigits (Z.abs_N z)).

(** The records the handler pages through. *)
Definition searched (req : Handlers.Query) (snapshot : list Item) : list Item :=
  let q := default EmptyString (Handlers.q req) in
  if truthy q then filterItems snapshot q else snapshot.

(** The request is refused, or answered with the default page 1 of size 10. *)
Definition RejectedOrDefaulted (outcome : Result Handlers.ItemsResponse) : Prop :=
  (exists e, outcome = Err e) \/
  (exists resp, outcome = Ok resp /\
     Handlers.currentPage (Handlers.pagination resp) = ofZ 1 /\
     Handlers.itemsPerPage (Handlers.pagination resp) = ofZ 10).

(** Every pending timer is the one [cacheTimeout] refers to. *)
Definition TimersTracked (w : World) : Prop :=
  forall handle, is_Some (timers (host w) !! handle) ->
    cacheTimeout (stats_js w) = Some handle.

(** Weakest precondition of an async body run among other requests: [I]
    holds whenever the body is suspended, it may be assumed again when the
    body is resumed, and [Q] holds of the result and the world at the end. *)
Fixpoint wp {A : Type} (I : World -> Prop) (p : Async A)
    (Q : Result A -> World -> Prop) (w : World) : Prop :=
  match p with
  | Ret a => Q (Ok a) w
  | Throw e => Q (Err e) w
  | Get k => wp I (k w) Q w
  | Put w' k => wp I k Q w'
  | ReadFile k =>
      I (with_host countRead w) /\ forall r w', I w' -> wp I (k r) Q w'
  end.

(** A suspended call keeps [I] when it is resumed. *)
Definition CallSafe {A : Type} (I : World -> Prop) (c : Call A) : Prop :=
  match c with
  | Settled _ => True
  | Suspended k => forall r w, I w -> wp I (k r) (fun _ w' => I w') w
  end.

(** The body keeps [I]: started or resumed in a world with [I], it is
    suspended and it ends in a world with [I]. *)
Definition Keeps {A : Type} (I : World -> Prop) (p : Async A) : Prop :=
  forall w, I w -> wp I p (fun _ w' => I w') w.

(** The server is safe for [I]: [I] holds of its world and every suspended
    call keeps it. *)
Definition StateSafe {A : Type} (I : World -> Prop) (s : Server.State A) : Prop :=
  I (Server.world s) /\ Forall (CallSafe I) (Server.calls s).

(** The reload of the data file fails: the read is rejected or the text does
    not parse. *)
Definition reloadFails (w : World) : Prop :=
  forall loaded, dataFile (host w) <> ReadResolved (ItemsJSON loaded).

(** The policy of serving the stale snapshot when the reload fails. *)
Definition ServesStaleOnFailure (w : World) : Prop :=
  forall cached,
    itemsCache (items_js w) = Some cached ->
    ItemsRoute.cacheValid (items_js w) (clock (host w)) = false ->
    reloadFails w ->
    snd (complete ItemsRoute.getItems w) = Ok cached.

(** A call suspended on its read whose continuation satisfies [K]. *)
Definition SuspendedWith {A : Type} (K : (FileRead -> Async A) -> Prop)
    (c : Call A) : Prop :=
  match c with
  | Suspended k => K k
  | Settled _ => False
  end.

(** The item cache is invalid at the time [now] the clock shows. *)
Definition itemsStaleAt (now : Z) (w : World) : Prop :=
  ItemsRoute.cacheValid (items_js w) (clock (host w)) = false /\ clock (host w) = now.

(** Both caches are invalid. *)
Definition bothStale (w : World) : Prop :=
  ItemsRoute.cacheValid (items_js w) (clock (host w)) = false /\
  StatsService.cacheValid (stats_js w) (clock (host w)) = false.

(** The server that answers every request with [getItems]. *)
Definition itemsServer (_ : unit) : Async (list Item) := ItemsRoute.getItems.

(** What a request for the statistics that was suspended on its read does
    when the read settles, [now] being the time at which the request
    started: it installs the records it read itself and their statistics,
    both dated [now], and, a watcher being open, answers with these
    statistics; or it logs and throws. *)
Definition SettlesStats (now : Z) (k : FileRead -> Async Response) : Prop :=
  forall r w,
    match r with
    | ReadResolved (ItemsJSON loaded) =>
        exists w' c,
          run (k r) w = (w', c) /\
          itemsCache (items_js w') = Some loaded /\
          itemsCacheTimestamp (items_js w') = now /\
          statsCache (stats_js w') = Some (calculateStats (ArgArray loaded)) /\
          statsCacheTimestamp (stats_js w') = now /\
          (is_Some (watcher (stats_js w)) ->
           c = Settled (Ok (StatsBody (calculateStats (ArgArray loaded)))))
    | _ =>
        run (k r) w =
          (fst (run (console_write "Error reading items file:") w),
           Settled (Err (mkError "Failed to read items data")))
    end.

(** Two requests arriving while the entry is stale answer with one load. *)
Definition SingleFlight (w : World) : Prop :=
  let s := Server.exec itemsServer
             {| Server.world := w; Server.calls := [] |}
             [Server.Invoke tt; Server.Invoke tt] in
  (Server.inFlight s <= 1)%nat /\ reads (host (Server.world s)) = S (reads (host w)).

(** The record has no text at all: each field is absent or empty. *)
Definition textless (item : Item) : Prop :=
  fieldText (name item) = EmptyString /\
  fieldText (description item) = EmptyString /\
  fieldText (category item) = EmptyString.

(** The request for page [p] with the given [limit] and [q]. *)
Definition pageRequest (lim qq : option string) (p : nat) : Handlers.Query :=
  {| Handlers.page := Some (printInteger (Z.of_nat p));
     Handlers.limit := lim; Handlers.q := qq |}.

(** The open watchers are the one [watcher] refers to. *)
Definition WatcherTracked (w : World) : Prop :=
  watchers (host w) =
    match watcher (stats_js w) with Some h => {[h]} | None => ∅ end.

(* ================================================================== *)
(** * Fixtures: the records and the worlds of the examples *)
(* ================================================================== *)

Definition laptop : Item :=
  {| id := 1; name := Some "Laptop"%string;
     description := Some "High performance"%string;
     category := Some "Electronics"%string; price := VNumber (ofZ 100) |}.

Definition mouse : Item :=
  {| id := 2; name := Some "Mouse"%string;
     description := Some "Wireless mouse"%string;
     category := Some "Electronics"%string; price := VNumber (ofZ 200) |}.

Definition desk : Item :=
  {| id := 3; name := Some "Desk"%string;
     description := None;
     category := Some "Furniture"%string; price := VString "150" |}.

Definition catalogue : list Item := [laptop; mouse; desk].

(** A record filed under a name that every object literal inherits. *)
Definition brickSet : Item :=
  {| id := 4; name := Some "Brick set"%string; description := None;
     category := Some "constructor"%string; price := VNumber (ofZ 10) |}.

(** Forty-five records. *)
Definition fortyFive : list Item :=
  List.map (fun i => {| id := Z.of_nat i; name := Some "Item"%string;
                        description := None; category := None;
                        price := VNumber (ofZ 10) |})
           (seq 1 45).

(** A server that has just started, with a readable data file. *)
Definition coldWorld : World :=
  initialWorld (ReadResolved (ItemsJSON catalogue)) 1700000000000.

(** The entry holds [laptop] alone, loaded 30 seconds ago, and the data file
    has become unreadable. *)
Definition staleWorld : World :=
  {| items_js := {| itemsCache := Some [laptop];
                    itemsCacheTimestamp := 1700000000000 |};
     stats_js := initialStatsModule;
     host := {| clock := 1700000030000; timers := ∅; watchers := ∅;
                nextHandle := 0; reads := 1;
                dataFile := ReadRejected "ENOENT"; console := [] |} |}.

(** The same stale entry with a readable data file. *)
Definition expiredWorld : World :=
  with_host (Server.writeFile (ReadResolved (ItemsJSON catalogue))) staleWorld.

(** The server after it has answered one request for the statistics. *)
Definition servedWorld : World :=
  Server.world (Server.exec app
    {| Server.world := coldWorld; Server.calls := [] |}
    [Server.Invoke GetStats;
     Server.Settle 0 (ReadResolved (ItemsJSON catalogue))]).

(** A record without a name, a description or a category. *)
Definition blankItem : Item :=
  {| id := 9; name := None; description := Some EmptyString; category := None;
     price := VString "n/a" |}.

(* ================================================================== *)
(** * Proofs *)
(* ================================================================== *)

Local Arguments String.append !_ _ / : simpl nomatch.

Section StringFacts.

Implicit Types s t : string.

Lemma startsWith_spec s t :
  startsWith s t = true <-> exists post, s = t +:+ post.
Proof.
  revert s. induction t as [|c t IH]; intros s; simpl.
  - split; [intros _; by exists s | done].
  - destruct s as [|d s].
    + split; [discriminate | intros [post H]; discriminate].
    + destruct (ascii_dec c d) as [->|Hne].
      * rewrite IH. split; intros [post H]; exists post; congruence.
      * split; [discriminate | intros [post H]; congruence].
Qed.

Lemma includes_spec s t : includes s t = true <-> Substring t s.
Proof.
  unfold Substring. induction s as [|c s IH]; simpl.
  - rewrite orb_false_r, startsWith_spec. split.
    + intros [post H]. exists EmptyString, post. exact H.
    + intros ([|? pre] & post & H); simpl in H; [eauto | discriminate].
  - rewrite orb_true_iff, IH, startsWith_spec. split.
    + intros [[post H] | (pre & post & H)].
      * exists EmptyString, post. exact H.
      * exists (String c pre), post. simpl. congruence.
    + intros ([|d pre] & post & H); simpl in H.
      * left. eauto.
      * right. exists pre, post. congruence.
Qed.

Lemma isEmpty_true s : isEmpty s = true <-> s = EmptyString.
Proof. destruct s; simpl; split; congruence. Qed.

Lemma trimEnd_blank s : blank s = true <-> trimEnd s = EmptyString.
Proof.
  induction s as [|c s IH]; simpl; [done|].
  destruct (isWhiteSpace c); simpl.
  - rewrite IH. destruct (trimEnd s); simpl; split; congruence.
  - split; discriminate.
Qed.

Lemma blank_trimStart s : blank (trimStart s) = blank s.
Proof.
  induction s as [|c s IH]; simpl; [done|].
  destruct (isWhiteSpace c) eqn:Hc; simpl; [done|]. by rewrite Hc.
Qed.

(** A string trims to nothing exactly when it is blank. *)
Lemma trim_empty_iff s : trim s = EmptyString <-> blank s = true.
Proof. unfold trim. by rewrite <- trimEnd_blank, blank_trimStart. Qed.

Lemma isWhiteSpace_toLowerCase c :
  isWhiteSpace (toLowerCase_unit c) = isWhiteSpace c.
Proof. destruct c as [[] [] [] [] [] [] [] []]; reflexivity. Qed.

Lemma toLowerCase_trimStart s :
  trimStart (toLowerCase s) = toLowerCase (trimStart s).
Proof.
  induction s as [|c s IH]; simpl; [done|].
  rewrite isWhiteSpace_toLowerCase. by destruct (isWhiteSpace c).
Qed.

Lemma isEmpty_toLowerCase s : isEmpty (toLowerCase s) = isEmpty s.
Proof. by destruct s. Qed.

Lemma toLowerCase_trimEnd s :
  trimEnd (toLowerCase s) = toLowerCase (trimEnd s).
Proof.
  induction s as [|c s IH]; simpl; [done|].
  rewrite isWhiteSpace_toLowerCase, IH, isEmpty_toLowerCase.
  by destruct (isWhiteSpace c && isEmpty (trimEnd s)).
Qed.

(** Lower-casing and trimming commute. *)
Lemma toLowerCase_trim s : trim (toLowerCase s) = toLowerCase (trim s).
Proof. unfold trim. by rewrite toLowerCase_trimStart, toLowerCase_trimEnd. Qed.

End StringFacts.

Section TrimFacts.

Implicit Types s t : string.

Lemma trimStart_split s :
  exists l, s = l +:+ trimStart s /\ blank l = true.
Proof.
  induction s as [|c s (l & Hs & Hl)]; simpl.
  - by exists EmptyString.
  - destruct (isWhiteSpace c) eqn:Hc.
    + exists (String c l). simpl. rewrite Hc, Hl. split; [by f_equal | done].
    + by exists EmptyString.
Qed.

Lemma trimEnd_split s :
  exists r, s = trimEnd s +:+ r /\ blank r = true.
Proof.
  induction s as [|c s (r & Hs & Hr)]; simpl.
  - by exists EmptyString.
  - destruct (isWhiteSpace c && isEmpty (trimEnd s)) eqn:Hc.
    + apply andb_true_iff in Hc as [Hc He]. apply isEmpty_true in He.
      exists (String c s). simpl. rewrite Hc. split; [done|].
      rewrite He in Hs. simpl in Hs. by rewrite Hs.
    + exists r. simpl. split; [by f_equal | done].
Qed.

Lemma trimStart_head s c t : trimStart s = String c t -> isWhiteSpace c = false.
Proof.
  induction s as [|d s IH]; simpl; [done|].
  destruct (isWhiteSpace d) eqn:Hd; [done|]. congruence.
Qed.

Lemma trimEnd_head s c t :
  trimEnd s = String c t -> exists s', s = String c s'.
Proof.
  destruct s as [|d s]; simpl; [done|].
  destruct (isWhiteSpace d && isEmpty (trimEnd s)); [done|].
  intros [= -> _]. eauto.
Qed.

Lemma trimEnd_last s c t :
  trimEnd s = t +:+ String c EmptyString -> isWhiteSpace c = false.
Proof.
  revert t. induction s as [|d s IH]; intros t; simpl.
  - destruct t; discriminate.
  - destruct (isWhiteSpace d && isEmpty (trimEnd s)) eqn:Hc.
    + destruct t; discriminate.
    + destruct t as [|e t]; simpl.
      * intros [= -> He]. rewrite He in Hc. simpl in Hc.
        by rewrite andb_true_r in Hc.
      * intros [= _ He]. eauto.
Qed.

(** [trim] takes the white space off both ends and nothing else. *)
Lemma trim_Trimmed s : Trimmed s (trim s).
Proof.
  destruct (trimStart_split s) as (l & Hl & Hbl).
  destruct (trimEnd_split (trimStart s)) as (r & Hr & Hbr).
  exists l, r. unfold trim. repeat split; try done.
  - by rewrite <- Hr.
  - intros c t Ht. destruct (trimEnd_head _ _ _ Ht) as [s' Hs'].
    eapply trimStart_head, Hs'.
  - intros c t Ht. eapply trimEnd_last, Ht.
Qed.

End TrimFacts.

Section Search.

Lemma or_empty_fieldText field : or_empty field = fieldText field.
Proof. by destruct field as [[|]|]. Qed.

Lemma matchesTerm_Matches query item :
  matchesTerm (trim (toLowerCase query)) item = true <-> Matches query item.
Proof.
  unfold matchesTerm, Matches.
  rewrite !orb_true_iff, !includes_spec, !or_empty_fieldText, toLowerCase_trim.
  tauto.
Qed.

Global Instance Matches_dec query item : Decision (Matches query item).
Proof.
  refine (cast_if (decide (matchesTerm (trim (toLowerCase query)) item = true)));
    abstract (by rewrite <- matchesTerm_Matches).
Defined.

Lemma List_filter_ext_dec {A} (f : A -> bool) (P : A -> Prop)
    `{!forall x, Decision (P x)} (l : list A) :
  (forall x, f x = true <-> P x) -> List.filter f l = filter P l.
Proof.
  intros Hf. induction l as [|x l IH]; [done|].
  simpl. rewrite filter_cons, IH. destruct (decide (P x)) as [HP|HP].
  - apply Hf in HP. by rewrite HP.
  - destruct (f x) eqn:Hx; [|done]. apply Hf in Hx. done.
Qed.

(** C6.  For every sequence of items and every query that is empty or made
    of white space only, [filterItems] returns the input sequence itself. *)
Theorem filterItems_blank_query (items : list Item) (query : string) :
  blank query = true -> filterItems items query = items.
Proof.
  intros Hq. unfold filterItems.
  apply trim_empty_iff in Hq. rewrite Hq. by rewrite orb_true_r.
Qed.

Lemma filterItems_not_blank items query :
  blank query = false ->
  filterItems items query = List.filter (matchesTerm (trim (toLowerCase query))) items.
Proof.
  intros Hq. unfold filterItems.
  assert (truthy query = true) as ->.
  { destruct query; [done|reflexivity]. }
  assert (truthy (trim query) = true) as ->; [|done].
  unfold truthy. destruct (isEmpty (trim query)) eqn:He; [|done].
  apply isEmpty_true, trim_empty_iff in He. congruence.
Qed.

(** C1.  For every sequence of items and every query that is not blank,
    [filterItems] returns exactly the items that match, in the order of the
    input: it is the input filtered by [Matches], that is, by the trimmed,
    lower-cased query being a substring of the lower-cased name, description
    or category, an absent field counting as the empty string.  The function
    is total: no item makes it fail. *)
Theorem filterItems_matches (items : list Item) (query : string) :
  blank query = false ->
  filterItems items query = filter (Matches query) items /\
  filterItems items query `sublist_of` items /\
  (forall item, item ∈ filterItems items query <-> item ∈ items /\ Matches query item).
Proof.
  intros Hq. rewrite (filterItems_not_blank _ _ Hq).
  rewrite (List_filter_ext_dec _ (Matches query)) by apply matchesTerm_Matches.
  split; [done|]. split.
  - apply sublist_filter.
  - intros item. rewrite list_elem_of_filter. tauto.
Qed.

End Search.

Section NumberFacts.

Lemma Qred_inject_Z z : Qred (inject_Z z) = inject_Z z.
Proof.
  unfold Qred, inject_Z.
  pose proof (Z.ggcd_gcd z 1) as Hg.
  pose proof (Z.ggcd_correct_divisors z 1) as Hd.
  destruct (Z.ggcd z 1) as [g [a b]]. simpl in *.
  rewrite Z.gcd_1_r in Hg. subst g. destruct Hd as [Ha Hb].
  rewrite !Z.mul_1_l in *. by subst.
Qed.

Lemma add_ofZ a b : add (ofZ a) (ofZ b) = ofZ (a + b).
Proof.
  unfold add, ofZ. f_equal. rewrite <- (Qred_inject_Z (a + b)).
  apply Qred_complete. by rewrite inject_Z_plus.
Qed.

Lemma sub_ofZ a b : sub (ofZ a) (ofZ b) = ofZ (a - b).
Proof.
  unfold sub, ofZ. f_equal. rewrite <- (Qred_inject_Z (a - b)).
  apply Qred_complete. unfold Z.sub, Qminus.
  by rewrite inject_Z_plus, inject_Z_opp.
Qed.

Lemma mul_ofZ a b : mul (ofZ a) (ofZ b) = ofZ (a * b).
Proof.
  unfold mul, ofZ. f_equal. rewrite <- (Qred_inject_Z (a * b)).
  apply Qred_complete. by rewrite inject_Z_mult.
Qed.

Lemma Qsign_inject_Z z : Qsign (inject_Z z) = (z ?= 0).
Proof. unfold Qsign, Qcompare, inject_Z. simpl. by rewrite !Z.mul_1_r. Qed.

Lemma Qceiling_div n d : 0 < d -> Qceiling (inject_Z n / inject_Z d) = ceilDiv n d.
Proof.
  intros Hd. unfold Qceiling, ceilDiv. f_equal.
  rewrite Zdiv_Qdiv. apply Qfloor_comp.
  rewrite inject_Z_opp. field.
  intros H. apply (inject_Z_injective d 0) in H. lia.
Qed.

Lemma ceilDiv_spec n d :
  0 < d -> (ceilDiv n d - 1) * d < n <= ceilDiv n d * d.
Proof.
  intros Hd. unfold ceilDiv.
  pose proof (Z.div_mod (- n) d) as H.
  pose proof (Z.mod_pos_bound (- n) d Hd). nia.
Qed.

Lemma div_ceil_ofZ n d :
  0 < d -> Math_ceil (div (ofZ n) (ofZ d)) = ofZ (ceilDiv n d).
Proof.
  intros Hd. unfold div, ofZ. rewrite Qsign_inject_Z.
  destruct (Z.compare_spec d 0); try lia.
  simpl. unfold ofZ. do 2 f_equal.
  rewrite <- Qceiling_div by done. apply Qceiling_comp, Qred_correct.
Qed.

Lemma Qtruncate_inject_Z z : Qtruncate (inject_Z z) = z.
Proof. unfold Qtruncate. destruct (Qle_bool _ _); [apply Qfloor_Z | apply Qceiling_Z]. Qed.

Lemma ToIntegerOrInfinity_ofZ z : ToIntegerOrInfinity (ofZ z) = IInt z.
Proof. simpl. by rewrite Qtruncate_inject_Z. Qed.

End NumberFacts.

Section DigitFacts.

Implicit Types (d n : N) (ds : list N).

Lemma digit_of_digitChar d : isDigit d -> digit_of (digitChar d) = Some d.
Proof.
  unfold isDigit, digit_of, digitChar. intros Hd.
  rewrite N_ascii_embedding by lia.
  replace ((48 <=? 48 + d)%N) with true by (symmetry; apply N.leb_le; lia).
  replace ((48 + d <=? 57)%N) with true by (symmetry; apply N.leb_le; lia).
  simpl. f_equal. lia.
Qed.

Lemma isWhiteSpace_digitChar d : isDigit d -> isWhiteSpace (digitChar d) = false.
Proof.
  unfold isDigit, isWhiteSpace, digitChar. intros Hd.
  rewrite N_ascii_embedding by lia.
  rewrite !orb_false_iff, andb_false_iff, !N.eqb_neq, !N.leb_gt. lia.
Qed.

Lemma scanDigits_stringOfDigits ds rest :
  Forall isDigit ds -> noDigitAhead rest ->
  scanDigits (stringOfDigits ds +:+ rest) = (ds, rest).
Proof.
  intros Hds Hrest. induction Hds as [|d ds Hd _ IH]; simpl; [done|].
  by rewrite digit_of_digitChar, IH.
Qed.

Lemma digitsValue_app ds1 ds2 :
  digitsValue (ds1 ++ ds2) =
  (digitsValue ds1 * 10 ^ N.of_nat (length ds2) + digitsValue ds2)%N.
Proof.
  unfold digitsValue. rewrite fold_left_app.
  generalize (fold_left (fun acc d => acc * 10 + d)%N ds1 0%N) as x.
  induction ds2 as [|d ds2 IH]; intros x.
  - simpl. lia.
  - cbn [fold_left length]. rewrite IH, (IH (0 * 10 + d)%N).
    rewrite Nat2N.inj_succ, N.pow_succ_r'. lia.
Qed.

Lemma digitsValue_zeros k ds :
  digitsValue (repeat 0%N k ++ ds) = digitsValue ds.
Proof.
  rewrite digitsValue_app.
  assert (digitsValue (repeat 0%N k) = 0%N) as ->; [|lia].
  induction k as [|k IH]; [done|]. exact IH.
Qed.

Lemma digitsOf_spec fuel n acc :
  (0 < fuel)%nat -> (n < 10 ^ N.of_nat fuel)%N ->
  exists ds, digitsOf fuel n acc = ds ++ acc /\ digitsValue ds = n /\
    Forall isDigit ds /\ ds <> [].
Proof.
  revert n acc. induction fuel as [|fuel IH]; intros n acc Hf Hn; [lia|].
  simpl. pose proof (N.mod_lt n 10 ltac:(lia)) as Hmod.
  pose proof (N.div_mod n 10 ltac:(lia)) as Hdiv.
  destruct (N.eqb_spec (n / 10) 0) as [Hz|Hz].
  - exists [(n mod 10)%N]. repeat split; try done.
    + unfold digitsValue. simpl. lia.
    + by constructor.
  - rewrite Nat2N.inj_succ, N.pow_succ_r' in Hn.
    assert (n / 10 < 10 ^ N.of_nat fuel)%N as Hq.
    { apply N.Div0.div_lt_upper_bound. lia. }
    assert (0 < fuel)%nat as Hf'.
    { destruct fuel; [|lia]. simpl in Hq. lia. }
    destruct (IH (n / 10)%N ((n mod 10)%N :: acc) Hf' Hq)
      as (ds & Hds & Hv & Hall & Hne).
    exists (ds ++ [(n mod 10)%N]). repeat split.
    + by rewrite Hds, <- app_assoc.
    + rewrite digitsValue_app, Hv. unfold digitsValue. simpl. lia.
    + apply Forall_app. split; [done|]. by constructor.
    + by destruct ds.
Qed.

Lemma decimalDigits_spec n :
  digitsValue (decimalDigits n) = n /\
  Forall isDigit (decimalDigits n) /\ decimalDigits n <> [].
Proof.
  unfold decimalDigits.
  destruct (digitsOf_spec (S (N.to_nat (N.log2 n))) n []) as (ds & Hds & H).
  - lia.
  - rewrite Nat2N.inj_succ, N2Nat.id.
    destruct (N.eq_dec n 0%N) as [->|Hn]; [done|].
    pose proof (N.log2_spec n ltac:(lia)) as [_ Hlt].
    eapply N.lt_le_trans; [exact Hlt|].
    apply N.pow_le_mono_l. lia.
  - rewrite Hds, app_nil_r. exact H.
Qed.

End DigitFacts.

Section ParseFacts.

Implicit Types (d n : N) (ds : list N).

Lemma N_of_digitChar d : isDigit d -> N_of_ascii (digitChar d) = (48 + d)%N.
Proof. unfold isDigit, digitChar. intros. apply N_ascii_embedding. lia. Qed.

Lemma scanSign_digit d s :
  isDigit d -> scanSign (String (digitChar d) s) = (false, String (digitChar d) s).
Proof.
  intros Hd. pose proof (N_of_digitChar d Hd) as Hc. unfold isDigit in Hd.
  destruct (digitChar d) as [[] [] [] [] [] [] [] []]; try reflexivity;
    simpl in Hc; lia.
Qed.

Lemma startsWith_Infinity_digit d s :
  isDigit d -> startsWith (String (digitChar d) s) "Infinity" = false.
Proof.
  intros Hd. pose proof (N_of_digitChar d Hd) as Hc. unfold isDigit in Hd.
  change (startsWith (String (digitChar d) s) "Infinity")
    with (if ascii_dec "I"%char (digitChar d)
          then startsWith s "nfinity" else false).
  destruct (ascii_dec "I"%char (digitChar d)) as [He|]; [|done].
  rewrite <- He in Hc. simpl in Hc. lia.
Qed.

Lemma scanDigits_only ds :
  Forall isDigit ds -> scanDigits (stringOfDigits ds) = (ds, EmptyString).
Proof.
  intros Hds. induction Hds as [|d ds Hd _ IH]; simpl; [done|].
  by rewrite digit_of_digitChar, IH.
Qed.

(** Reading back a printed decimal with a point. *)
Lemma parseFloat_string_decimal (negative : bool) ds fs :
  ds <> [] -> Forall isDigit ds -> Forall isDigit fs ->
  parseFloat_string
    ((if negative then "-" else EmptyString) +:+
     stringOfDigits ds +:+ "." +:+ stringOfDigits fs) =
  Fin (scale10 (applySign negative (Z.of_N (digitsValue (ds ++ fs))))
               (- Z.of_nat (length fs))).
Proof.
  intros Hne Hds Hfs.
  assert (noDigitAhead ("." +:+ stringOfDigits fs)) as Hdot by reflexivity.
  pose proof (scanDigits_stringOfDigits ds _ Hds Hdot) as Hscan.
  destruct ds as [|d ds]; [done|]. inversion Hds as [|? ? Hd Hds']; subst.
  set (body := stringOfDigits (d :: ds) +:+ "." +:+ stringOfDigits fs) in *.
  assert (body = String (digitChar d)
            (stringOfDigits ds +:+ "." +:+ stringOfDigits fs)) as Hbody by done.
  assert (parseFloat_string ((if negative then "-" else EmptyString) +:+ body) =
          (let (ip, r1) := scanDigits body in
           let '(fp, r2, ok) :=
             match r1 with
             | String "." r =>
                 let (fp, r') := scanDigits r in
                 match ip, fp with
                 | [], [] => ([], r1, false)
                 | _, _ => (fp, r', true)
                 end
             | _ => ([], r1, match ip with [] => false | _ => true end)
             end in
           if ok then
             Fin (scale10
                    (applySign negative (Z.of_N (digitsValue (ip ++ fp))))
                    (scanExponent r2 - Z.of_nat (length fp)))
           else NaN)) as ->.
  { unfold parseFloat_string. destruct negative.
    - change ("-" +:+ body) with (String "-" body).
      change (trimStart (String "-" body)) with (String "-" body).
      change (scanSign (String "-" body)) with (true, body).
      cbv iota beta. rewrite Hbody at 1.
      by rewrite startsWith_Infinity_digit.
    - change (EmptyString +:+ body) with body. rewrite Hbody at 1 2.
      cbn [trimStart]. rewrite isWhiteSpace_digitChar by done.
      rewrite scanSign_digit by done. cbv iota beta.
      rewrite startsWith_Infinity_digit by done. by rewrite <- Hbody. }
  rewrite Hscan. change ("." +:+ stringOfDigits fs) with (String "." (stringOfDigits fs)).
  cbv iota beta. rewrite scanDigits_only by done.
  cbv iota beta. f_equal.
Qed.

End ParseFacts.

Section Rounding.

Lemma nearestHundredth_floor x :
  (0 <= x)%Q -> Z.of_N (nearestHundredth x) = Qfloor (x * 100 + (1 # 2)).
Proof.
  intros Hx. unfold nearestHundredth. rewrite Z2N.id; [done|].
  change 0 with (Qfloor 0). apply Qfloor_resp_le. lra.
Qed.

Lemma toFixed2_parse q :
  parseFloat_string (toFixed2 q) = Fin (Qred (roundHalfAway q)).
Proof.
  unfold toFixed2, roundHalfAway.
  set (n := nearestHundredth (Qabs q)).
  destruct (decimalDigits_spec n) as (Hv & Hall & Hne).
  set (m := repeat 0%N (3 - length (decimalDigits n)) ++ decimalDigits n).
  assert (3 <= length m)%nat as Hlen.
  { unfold m. rewrite length_app, repeat_length. lia. }
  assert (Forall isDigit m) as Hm.
  { apply Forall_app. split; [|done].
    apply Forall_forall. intros d Hd.
    apply list_elem_of_In, repeat_spec in Hd. subst d. unfold isDigit. lia. }
  rewrite <- (firstn_skipn (length m - 2) m) in Hm.
  apply Forall_app in Hm as [Ha Hb].
  rewrite parseFloat_string_decimal; try done.
  - rewrite firstn_skipn. unfold m at 1. rewrite digitsValue_zeros, Hv.
    rewrite length_skipn.
    replace (length m - (length m - 2))%nat with 2%nat by lia.
    unfold n. rewrite nearestHundredth_floor by apply Qabs_nonneg.
    reflexivity.
  - intros H. apply (f_equal (@length N)) in H.
    rewrite length_firstn in H. simpl in H. lia.
Qed.

Lemma roundTo2_finite q :
  (Qabs q < inject_Z (10 ^ 21))%Q ->
  roundTo2 (Fin q) = Fin (Qred (roundHalfAway q)).
Proof.
  intros Hq. unfold roundTo2.
  destruct (Qle_bool _ _) eqn:Hle.
  - apply Qle_bool_iff in Hle. lra.
  - apply toFixed2_parse.
Qed.

(** The rounded value is a whole number of hundredths. *)
Lemma roundHalfAway_hundredths q : exists z : Z, roundHalfAway q = Qmake z 100.
Proof. unfold roundHalfAway. eauto. Qed.

(** It is within half a hundredth of the value. *)
Lemma roundHalfAway_close q : (Qabs (roundHalfAway q - q) <= 1 # 200)%Q.
Proof.
  unfold roundHalfAway.
  pose proof (Qfloor_le (Qabs q * 100 + (1 # 2))) as Hlo.
  pose proof (Qlt_floor (Qabs q * 100 + (1 # 2))) as Hhi.
  rewrite inject_Z_plus in Hhi. change (inject_Z 1) with 1%Q in Hhi.
  generalize dependent (Qfloor (Qabs q * 100 + (1 # 2))). intros f Hlo Hhi.
  assert (forall z, Qmake z 100 == inject_Z z * (1 # 100))%Q as Hmk.
  { intros z. unfold Qeq. simpl. lia. }
  apply Qabs_Qle_condition. unfold Qsign.
  destruct (Qcompare_spec q 0) as [Hq|Hq|Hq]; unfold applySign.
  - rewrite Hmk. assert (Qabs q == 0)%Q as Ha by (rewrite Hq; reflexivity).
    rewrite Ha in *. lra.
  - rewrite Hmk, inject_Z_opp.
    assert (Qabs q == - q)%Q as Ha by (apply Qabs_neg; lra).
    rewrite Ha in *. lra.
  - rewrite Hmk.
    assert (Qabs q == q)%Q as Ha by (apply Qabs_pos; lra).
    rewrite Ha in *. lra.
Qed.

End Rounding.

Section Order.

Implicit Types x y z : number.

Lemma le_refl x : notNaN x -> le x x.
Proof. destruct x; simpl; try done. intros _. apply Qle_refl. Qed.

Lemma le_trans x y z : le x y -> le y z -> le x z.
Proof.
  destruct x, y, z; simpl; try done. apply Qle_trans.
Qed.

Lemma lt_true_le x y : lt y x = true -> le y x.
Proof.
  destruct x, y; simpl; try done.
  destruct (Qcompare_spec q0 q); try done. intros _. by apply Qlt_le_weak.
Qed.

Lemma lt_false_le x y : notNaN x -> notNaN y -> lt y x = false -> le x y.
Proof.
  destruct x, y; simpl; try done.
  destruct (Qcompare_spec q0 q) as [H|H|H]; try done; intros _ _ _.
  - rewrite H. apply Qle_refl.
  - by apply Qlt_le_weak.
Qed.

Lemma min2_spec x y :
  notNaN x -> notNaN y ->
  notNaN (min2 x y) /\ (min2 x y = x \/ min2 x y = y) /\
  le (min2 x y) x /\ le (min2 x y) y.
Proof.
  intros Hx Hy.
  assert (min2 x y = if lt y x then y else x) as -> by by destruct x, y.
  destruct (lt y x) eqn:Hlt.
  - repeat split; auto using lt_true_le, le_refl.
  - repeat split; auto using lt_false_le, le_refl.
Qed.

Lemma max2_spec x y :
  notNaN x -> notNaN y ->
  notNaN (max2 x y) /\ (max2 x y = x \/ max2 x y = y) /\
  le x (max2 x y) /\ le y (max2 x y).
Proof.
  intros Hx Hy.
  assert (max2 x y = if lt x y then y else x) as -> by by destruct x, y.
  destruct (lt x y) eqn:Hlt.
  - repeat split; auto using lt_true_le, le_refl.
  - repeat split; auto using lt_false_le, le_refl.
Qed.

Lemma fold_min2_spec xs acc :
  Forall notNaN xs -> notNaN acc ->
  let r := fold_left min2 xs acc in
  notNaN r /\ (r = acc \/ r ∈ xs) /\ le r acc /\ Forall (le r) xs.
Proof.
  intros Hxs. revert acc. induction Hxs as [|x xs Hx _ IH]; intros acc Hacc.
  - simpl. repeat split; auto using le_refl.
  - cbn [fold_left].
    destruct (min2_spec acc x Hacc Hx) as (Hn & Hor & Hl1 & Hl2).
    destruct (IH _ Hn) as (Hn' & Hor' & Hl' & Hall).
    repeat split; [done| |eauto using le_trans|].
    + destruct Hor' as [->|Hin]; [|right; by constructor].
      destruct Hor as [->| ->]; [by left|right; by constructor].
    + constructor; eauto using le_trans.
Qed.

Lemma fold_max2_spec xs acc :
  Forall notNaN xs -> notNaN acc ->
  let r := fold_left max2 xs acc in
  notNaN r /\ (r = acc \/ r ∈ xs) /\ le acc r /\ Forall (fun x => le x r) xs.
Proof.
  intros Hxs. revert acc. induction Hxs as [|x xs Hx _ IH]; intros acc Hacc.
  - simpl. repeat split; auto using le_refl.
  - cbn [fold_left].
    destruct (max2_spec acc x Hacc Hx) as (Hn & Hor & Hl1 & Hl2).
    destruct (IH _ Hn) as (Hn' & Hor' & Hl' & Hall).
    repeat split; [done| |eauto using le_trans|].
    + destruct Hor' as [->|Hin]; [|right; by constructor].
      destruct Hor as [->| ->]; [by left|right; by constructor].
    + constructor; [eauto using le_trans|done].
Qed.

Lemma le_PosInf x : le PosInf x -> x = PosInf.
Proof. by destruct x. Qed.

Lemma le_NegInf x : le x NegInf -> x = NegInf.
Proof. by destruct x. Qed.

(** [Math.min] of a non-empty list without [NaN] is its least element. *)
Lemma Math_min_least xs :
  Forall notNaN xs -> xs <> [] ->
  Math_min xs ∈ xs /\ Forall (le (Math_min xs)) xs.
Proof.
  intros Hxs Hne. unfold Math_min.
  destruct (fold_min2_spec xs PosInf Hxs eq_refl) as (_ & Hor & _ & Hall).
  split; [|done]. destruct Hor as [Heq|]; [|done].
  rewrite Heq in *. destruct xs as [|x xs]; [done|].
  inversion Hall as [|? ? Hx _]; subst. apply le_PosInf in Hx. subst.
  by constructor.
Qed.

(** [Math.max] of a non-empty list without [NaN] is its greatest element. *)
Lemma Math_max_greatest xs :
  Forall notNaN xs -> xs <> [] ->
  Math_max xs ∈ xs /\ Forall (fun x => le x (Math_max xs)) xs.
Proof.
  intros Hxs Hne. unfold Math_max.
  destruct (fold_max2_spec xs NegInf Hxs eq_refl) as (_ & Hor & _ & Hall).
  split; [|done]. destruct Hor as [Heq|]; [|done].
  rewrite Heq in *. destruct xs as [|x xs]; [done|].
  inversion Hall as [|? ? Hx _]; subst. apply le_NegInf in Hx. subst.
  by constructor.
Qed.

End Order.

Section Aggregates.

Lemma fold_add_finite qs a :
  exists s, fold_left add (Fin <$> qs) (Fin a) = Fin s /\ (s == a + Qsum qs)%Q.
Proof.
  revert a. induction qs as [|q qs IH]; intros a.
  - exists a. split; [done|]. simpl. lra.
  - cbn [fmap list_fmap fold_left add].
    destruct (IH (Qred (a + q))) as (s & Hs & Heq).
    exists s. split; [done|]. rewrite Heq, Qred_correct. simpl. lra.
Qed.

Lemma roundHalfAway_comp q1 q2 : (q1 == q2)%Q -> roundHalfAway q1 = roundHalfAway q2.
Proof.
  intros H. unfold roundHalfAway, Qsign.
  rewrite (Qcompare_comp q1 q2 H 0%Q 0%Q (Qeq_refl 0)).
  f_equal. f_equal. apply Qfloor_comp. by rewrite H.
Qed.

(** The average the code computes over finite prices. *)
Lemma average_finite qs :
  qs <> [] -> (Qabs (Qmean qs) < inject_Z (10 ^ 21))%Q ->
  roundTo2 (div (fold_left add (Fin <$> qs) (ofZ 0))
                (ofNat (length (Fin <$> qs)))) =
  Fin (Qred (roundHalfAway (Qmean qs))).
Proof.
  intros Hne Hbound.
  destruct (fold_add_finite qs (inject_Z 0)) as (s & Hs & Heq).
  unfold ofZ at 1. rewrite Hs, length_fmap. unfold ofNat, ofZ, div.
  rewrite Qsign_inject_Z.
  destruct (Z.compare_spec (Z.of_nat (length qs)) 0) as [H|H|H].
  - destruct qs; [done|simpl in H; lia].
  - lia.
  - assert (Qred (s / inject_Z (Z.of_nat (length qs))) == Qmean qs)%Q as Hm.
    { rewrite Qred_correct. unfold Qmean. rewrite Heq.
      change (inject_Z 0) with 0%Q. by rewrite Qplus_0_l. }
    rewrite roundTo2_finite by by rewrite Hm.
    by rewrite (roundHalfAway_comp _ _ Hm).
Qed.

Lemma number_truthy_ofNat k : number_truthy (ofNat (S k)) = true.
Proof.
  unfold number_truthy, ofNat, ofZ. apply negb_true_iff.
  destruct (Qeq_bool _ _) eqn:H; [|done].
  apply Qeq_bool_iff in H. unfold Qeq in H. simpl in H. lia.
Qed.

Lemma plusOne_undefined : plusOne RUndefined = PNumber (ofNat 1).
Proof. unfold plusOne. by rewrite add_ofZ. Qed.

Lemma plusOne_count k : plusOne (ROwn (PNumber (ofNat (S k)))) = PNumber (ofNat (S (S k))).
Proof.
  unfold plusOne. rewrite number_truthy_ofNat. unfold ofNat.
  rewrite add_ofZ. do 2 f_equal. lia.
Qed.

Lemma countCategory_Counts obj cnt item :
  Counts obj cnt -> inheritedName (categoryKey item) = false ->
  Counts (countCategory obj item)
    (fun key => if decide (categoryKey item = key) then S (cnt key) else cnt key).
Proof.
  intros Hobj Hname key. unfold countCategory, set, get.
  pose proof (Hobj (categoryKey item)) as Hown.
  assert (categoryKey item <> "__proto__"%string) as Hproto.
  { intros H. by rewrite H in Hname. }
  unfold inheritedName in Hname.
  destruct (ObjectPrototype_get (categoryKey item)); [done|].
  destruct (cnt (categoryKey item)) as [|k] eqn:Hk; rewrite Hown.
  - rewrite decide_False by done. rewrite plusOne_undefined.
    destruct (decide (categoryKey item = key)) as [<-|Hne].
    + by rewrite lookup_insert_eq, Hk.
    + by rewrite lookup_insert_ne.
  - rewrite plusOne_count.
    destruct (decide (categoryKey item = key)) as [<-|Hne].
    + by rewrite lookup_insert_eq, Hk.
    + by rewrite lookup_insert_ne.
Qed.

Lemma fold_countCategory_Counts items obj cnt :
  Counts obj cnt ->
  Forall (fun item => inheritedName (categoryKey item) = false) items ->
  Counts (fold_left countCategory items obj)
    (fun key => (countKey key items + cnt key)%nat).
Proof.
  intros Hobj Hall. revert obj cnt Hobj.
  induction Hall as [|item items Hitem _ IH]; intros obj cnt Hobj.
  - exact Hobj.
  - cbn [fold_left]. intros key.
    rewrite (IH _ _ (countCategory_Counts _ _ _ Hobj Hitem) key).
    unfold countKey. rewrite filter_cons.
    destruct (decide (categoryKey item = key)); simpl;
      by rewrite ?Nat.add_succ_r.
Qed.

(** Without inherited names among the categories, [categories] maps each
    category to the number of records filed under it. *)
Lemma categories_counts items :
  Forall (fun item => inheritedName (categoryKey item) = false) items ->
  Counts (fold_left countCategory items ∅) (fun key => countKey key items).
Proof.
  intros Hall key.
  rewrite (fold_countCategory_Counts items ∅ (fun _ => O)); [|done|done].
  by rewrite Nat.add_0_r.
Qed.

End Aggregates.

Section AsyncFacts.

Context {A B : Type}.

Lemma complete_bind (p : Async A) (f : A -> Async B) w :
  complete (bind p f) w =
  match complete p w with
  | (w', Ok a) => complete (f a) w'
  | (w', Err e) => (w', Err e)
  end.
Proof.
  revert w. induction p as [a|e|k IH|w' k IH|k IH]; intros w; simpl; auto.
Qed.

Lemma run_bind (p : Async A) (f : A -> Async B) w :
  run (bind p f) w =
  match run p w with
  | (w', Settled (Ok a)) => run (f a) w'
  | (w', Settled (Err e)) => (w', Settled (Err e))
  | (w', Suspended k) => (w', Suspended (fun r => bind (k r) f))
  end.
Proof.
  revert w. induction p as [a|e|k IH|w' k IH|k IH]; intros w; simpl; auto.
Qed.

End AsyncFacts.

Section ItemCache.

Import ItemsRoute.

Lemma run_reload now w :
  exists k, run (reload now) w = (with_host countRead w, Suspended k) /\
    forall r w', run (k r) w' = settleItems now r w'.
Proof.
  eexists. split; [reflexivity|]. by intros [msg|[|items]] w'.
Qed.

Lemma cacheValid_iff m now :
  cacheValid m now = true <->
  exists cached, itemsCache m = Some cached /\ now - itemsCacheTimestamp m < CACHE_TTL.
Proof.
  unfold cacheValid. destruct (itemsCache m) as [c|].
  - rewrite Z.ltb_lt. split; [eauto|]. by intros (? & _ & ?).
  - split; [done|]. by intros (? & ? & _).
Qed.

Lemma run_getItems_hit w cached :
  itemsCache (items_js w) = Some cached ->
  clock (host w) - itemsCacheTimestamp (items_js w) < CACHE_TTL ->
  run getItems w = (w, Settled (Ok cached)).
Proof.
  intros Hc Hts. unfold getItems. simpl. rewrite Hc.
  apply Z.ltb_lt in Hts. by rewrite Hts.
Qed.

Lemma run_getItems_miss w :
  cacheValid (items_js w) (clock (host w)) = false ->
  run getItems w = run (reload (clock (host w))) w.
Proof.
  unfold cacheValid, getItems. simpl.
  destruct (itemsCache (items_js w)); [|done]. by intros ->.
Qed.

Lemma complete_getItems_hit w cached :
  itemsCache (items_js w) = Some cached ->
  clock (host w) - itemsCacheTimestamp (items_js w) < CACHE_TTL ->
  complete getItems w = (w, Ok cached).
Proof.
  intros Hc Hts. unfold getItems. simpl. rewrite Hc.
  apply Z.ltb_lt in Hts. by rewrite Hts.
Qed.

Lemma complete_getItems_miss w :
  cacheValid (items_js w) (clock (host w)) = false ->
  complete getItems w = loadOutcome w.
Proof.
  unfold cacheValid, getItems, loadOutcome, reload, readFile.
  unfold mbind, Async_bind. simpl.
  destruct (itemsCache (items_js w)) as [c|].
  - intros ->. simpl. by destruct (dataFile (host w)) as [msg|[|items]].
  - intros _. simpl. by destruct (dataFile (host w)) as [msg|[|items]].
Qed.

End ItemCache.

Section Pagination.

Import Handlers.

Lemma parseInt_printInteger z : parseInt (printInteger z) = ofZ z.
Proof.
  unfold printInteger.
  destruct (decimalDigits_spec (Z.abs_N z)) as (Hv & Hall & Hne).
  destruct (decimalDigits (Z.abs_N z)) as [|d ds] eqn:Hds; [done|].
  inversion Hall as [|? ? Hd Hall']; subst.
  assert (scanDigits (stringOfDigits (d :: ds)) = (d :: ds, EmptyString)) as Hscan
    by by apply scanDigits_only.
  unfold parseInt. destruct (Z.ltb_spec z 0) as [Hz|Hz].
  - change ("-" +:+ stringOfDigits (d :: ds))
      with (String "-" (stringOfDigits (d :: ds))).
    change (trimStart (String "-" (stringOfDigits (d :: ds))))
      with (String "-" (stringOfDigits (d :: ds))).
    change (scanSign (String "-" (stringOfDigits (d :: ds))))
      with (true, stringOfDigits (d :: ds)).
    cbv iota beta. rewrite Hscan, Hv. simpl. f_equal. lia.
  - change (EmptyString +:+ stringOfDigits (d :: ds)) with (stringOfDigits (d :: ds)).
    cbn [stringOfDigits trimStart] in *.
    rewrite isWhiteSpace_digitChar, scanSign_digit by done.
    cbv iota beta. rewrite Hscan, Hv. simpl. f_equal. lia.
Qed.

Lemma slice_ofZ {A} (l : list A) (s e : Z) :
  0 <= s <= e ->
  slice l (ofZ s) (ofZ e) =
  firstn (Z.to_nat (Z.min e (Z.of_nat (length l)) - Z.min s (Z.of_nat (length l))))
         (skipn (Z.to_nat (Z.min s (Z.of_nat (length l)))) l).
Proof.
  intros Hse. unfold slice. rewrite !ToIntegerOrInfinity_ofZ. unfold relativeIndex.
  destruct (Z.ltb_spec s 0); [lia|]. destruct (Z.ltb_spec e 0); [lia|].
  f_equal. lia.
Qed.

Lemma length_slice_ofZ {A} (l : list A) (s e : Z) :
  0 <= s <= e ->
  Z.of_nat (length (slice l (ofZ s) (ofZ e))) =
  Z.max 0 (Z.min e (Z.of_nat (length l)) - s).
Proof.
  intros Hse. rewrite slice_ofZ by done.
  rewrite length_firstn, length_skipn. lia.
Qed.

Lemma respond_positive (snapshot : list Item) (req : Query) (pageNum pageSize : Z) :
  parseInt (default "1"%string (page req)) = ofZ pageNum ->
  parseInt (default "10"%string (limit req)) = ofZ pageSize ->
  respond req snapshot =
  {| items := slice (searched req snapshot)
                (ofZ ((pageNum - 1) * pageSize))
                (ofZ ((pageNum - 1) * pageSize + pageSize));
     pagination :=
       {| currentPage := ofZ pageNum;
          totalPages :=
            Math_ceil (div (ofNat (length (searched req snapshot))) (ofZ pageSize));
          totalItems := length (searched req snapshot);
          itemsPerPage := ofZ pageSize |} |}.
Proof.
  intros Hp Hl. unfold respond, searched.
  by rewrite Hp, Hl, sub_ofZ, mul_ofZ, add_ofZ.
Qed.

(** C5.  For every sequence of items and every page and page size that
    [parseInt] reads as positive integers, the metadata reports the number of
    items and the number of pages (the ceiling of their quotient by the page
    size), the page holds the items from [(page - 1) * pageSize] on, at most
    [pageSize] of them, and a page beyond the last one is empty.  With 45
    items and a page size of 20 there are 3 pages, page 3 has 5 items and
    page 4 has none. *)
Theorem page_beyond_last (snapshot : list Item) (req : Query) (pageNum pageSize : Z) :
  parseInt (default "1"%string (page req)) = ofZ pageNum ->
  parseInt (default "10"%string (limit req)) = ofZ pageSize ->
  0 < pageNum -> 0 < pageSize ->
  let resp := respond req snapshot in
  let total := Z.of_nat (length (searched req snapshot)) in
  let pages := ceilDiv total pageSize in
  totalItems (pagination resp) = length (searched req snapshot) /\
  totalPages (pagination resp) = ofZ pages /\
  (pages - 1) * pageSize < total <= pages * pageSize /\
  Z.of_nat (length (items resp)) =
    Z.max 0 (Z.min pageSize (total - (pageNum - 1) * pageSize)) /\
  (pages < pageNum -> items resp = []) /\
  (total = 45 -> pageSize = 20 ->
   pages = 3 /\
   (pageNum = 3 -> length (items resp) = 5%nat) /\
   (pageNum = 4 -> items resp = [])).
Proof.
  intros Hp Hl Hpage Hsize resp total pages.
  subst resp. rewrite (respond_positive _ _ _ _ Hp Hl). cbn [items pagination
    totalItems totalPages].
  pose proof (ceilDiv_spec total pageSize Hsize) as Hceil. fold pages in Hceil.
  assert (Z.of_nat (length (slice (searched req snapshot)
            (ofZ ((pageNum - 1) * pageSize))
            (ofZ ((pageNum - 1) * pageSize + pageSize)))) =
          Z.max 0 (Z.min pageSize (total - (pageNum - 1) * pageSize))) as Hlen.
  { rewrite length_slice_ofZ by nia. fold total. lia. }
  assert (pages < pageNum ->
          slice (searched req snapshot) (ofZ ((pageNum - 1) * pageSize))
            (ofZ ((pageNum - 1) * pageSize + pageSize)) = []) as Hempty.
  { intros Hbeyond. apply length_zero_iff_nil.
    apply Nat2Z.inj. rewrite Hlen. simpl. nia. }
  split; [done|]. split; [exact (div_ceil_ofZ total pageSize Hsize)|].
  split; [done|]. split; [done|]. split; [done|].
  intros Htotal ->. assert (pages = 3) as Hpages.
  { subst pages. by rewrite Htotal. }
  split; [done|]. split.
  - intros ->. apply Nat2Z.inj. rewrite Hlen. lia.
  - intros ->. apply Hempty. lia.
Qed.

(** C2, as the code has it.  The pagination does not reject or default a
    parameter that is present.  The metadata reports [parseInt] of the text
    of [page] and [limit]; the defaults 1 and 10 stand in for an absent
    parameter only; the decimal text of a safe integer, zero and the
    negative ones included, is reported as that integer; and [totalPages]
    and the slice are computed from the reported values. *)
Theorem pagination_parameters_as_parsed (snapshot : list Item) (req : Query) :
  let meta := pagination (respond req snapshot) in
  currentPage meta = parseInt (default "1"%string (page req)) /\
  itemsPerPage meta = parseInt (default "10"%string (limit req)) /\
  (page req = None -> currentPage meta = ofZ 1) /\
  (limit req = None -> itemsPerPage meta = ofZ 10) /\
  (forall z, safeInteger z -> page req = Some (printInteger z) ->
     currentPage meta = ofZ z) /\
  (forall z, safeInteger z -> limit req = Some (printInteger z) ->
     itemsPerPage meta = ofZ z) /\
  totalPages meta =
    Math_ceil (div (ofNat (totalItems meta)) (itemsPerPage meta)) /\
  items (respond req snapshot) =
    slice (searched req snapshot)
      (mul (sub (currentPage meta) (ofZ 1)) (itemsPerPage meta))
      (add (mul (sub (currentPage meta) (ofZ 1)) (itemsPerPage meta))
           (itemsPerPage meta)).
Proof.
  cbn zeta. split; [done|]. split; [done|].
  unfold respond.
  cbn [pagination currentPage itemsPerPage totalPages totalItems items].
  split; [by intros ->|]. split; [by intros ->|].
  split; [intros z _ ->; apply parseInt_printInteger|].
  split; [intros z _ ->; apply parseInt_printInteger|].
  split; reflexivity.
Qed.

End Pagination.

Section WP.

Context {A B : Type} (I : World -> Prop).

Lemma wp_mono (p : Async A) (Q Q' : Result A -> World -> Prop) w :
  (forall r w', Q r w' -> Q' r w') -> wp I p Q w -> wp I p Q' w.
Proof.
  intros HQ. revert w. induction p as [a|e|k IH|w' k IH|k IH]; intros w; simpl; eauto.
  intros [HI Hk]. split; [done|]. eauto.
Qed.

Lemma wp_bind (p : Async A) (f : A -> Async B) (Q : Result B -> World -> Prop) w :
  wp I p (fun r w' => match r with
                      | Ok a => wp I (f a) Q w'
                      | Err e => Q (Err e) w'
                      end) w ->
  wp I (bind p f) Q w.
Proof.
  revert w. induction p as [a|e|k IH|w' k IH|k IH]; intros w; simpl; eauto.
  intros [HI Hk]. split; [done|]. eauto.
Qed.

Lemma wp_tryCatch (p : Async A) (handler : Error -> Async A)
    (Q : Result A -> World -> Prop) w :
  wp I p (fun r w' => match r with
                      | Ok a => Q (Ok a) w'
                      | Err e => wp I (handler e) Q w'
                      end) w ->
  wp I (tryCatch p handler) Q w.
Proof.
  revert w. induction p as [a|e|k IH|w' k IH|k IH]; intros w; simpl; eauto.
  intros [HI Hk]. split; [done|]. eauto.
Qed.

Lemma wp_run (p : Async A) (Q : Result A -> World -> Prop) w :
  wp I p Q w ->
  match run p w with
  | (w', Settled r) => Q r w'
  | (w', Suspended k) => I w' /\ forall r w'', I w'' -> wp I (k r) Q w''
  end.
Proof.
  revert w. induction p as [a|e|k IH|w' k IH|k IH]; intros w; simpl; auto;
    apply IH.
Qed.

Lemma wp_complete (p : Async A) (Q : Result A -> World -> Prop) w :
  wp I p Q w -> Q (snd (complete p w)) (fst (complete p w)).
Proof.
  revert w. induction p as [a|e|k IH|w' k IH|k IH]; intros w; simpl; eauto.
  intros [HI Hk]. eauto.
Qed.

End WP.

Section TimerInvariant.

Import StatsService.

Abbreviation Inv := TimersTracked.
Abbreviation keeps p := (Keeps TimersTracked p).

Lemma TimersTracked_frame w w' :
  timers (host w') = timers (host w) ->
  cacheTimeout (stats_js w') = cacheTimeout (stats_js w) ->
  Inv w -> Inv w'.
Proof. unfold TimersTracked. intros -> ->. done. Qed.

Lemma reload_keeps now : keeps (ItemsRoute.reload now).
Proof.
  intros w Hw. unfold ItemsRoute.reload. apply wp_tryCatch.
  unfold mbind, Async_bind, readFile. simpl.
  split; [by eapply TimersTracked_frame, Hw|].
  intros [msg|[|items]] w' Hw'; simpl; by eapply TimersTracked_frame, Hw'.
Qed.

Lemma getItems_keeps : keeps ItemsRoute.getItems.
Proof.
  intros w Hw. unfold ItemsRoute.getItems, mbind, Async_bind. simpl.
  destruct (itemsCache (items_js w)); [|by apply reload_keeps].
  destruct (_ <? _); [done|by apply reload_keeps].
Qed.

Lemma invalidateCache_keeps : keeps invalidateCache.
Proof.
  intros w Hw. unfold invalidateCache, mbind, Async_bind. simpl.
  destruct (cacheTimeout (stats_js w)) as [t|] eqn:Ht; simpl.
  - intros h [due Hdue]. simpl in *.
    apply lookup_delete_Some in Hdue as [Hne Hdue].
    specialize (Hw h (mk_is_Some _ _ Hdue)). congruence.
  - intros h Hh. simpl in *. specialize (Hw h Hh). congruence.
Qed.

Lemma timer_replaced (t : option nat) (n : nat) (d : Z) (times : gmap nat Z) :
  (forall h, is_Some (times !! h) -> t = Some h) ->
  forall h,
    is_Some (<[n := d]> (match t with
                         | Some old => delete old times
                         | None => times
                         end) !! h) ->
    n = h.
Proof.
  intros Htimes h [due Hdue].
  apply lookup_insert_Some in Hdue as [[-> _]|[Hne Hdue]]; [done|].
  destruct t as [old|].
  - apply lookup_delete_Some in Hdue as [Hne' Hdue].
    specialize (Htimes h (mk_is_Some _ _ Hdue)). congruence.
  - specialize (Htimes h (mk_is_Some _ _ Hdue)). congruence.
Qed.

(** The statements of [getCachedStats] that follow [await getItemsFn()]. *)
Lemma install_keeps (stats : Stats) (now : Z) w :
  Inv w ->
  wp Inv
    (modify (with_stats (set_cache (Some stats) now));;
     w ← gets (fun w => watcher (stats_js w));
     match w with
     | None => initFileWatcher
     | Some _ => Ret tt
     end;;
     t ← gets (fun w => cacheTimeout (stats_js w));
     match t with
     | Some handle => clearTimeout handle
     | None => Ret tt
     end;;
     handle ← setTimeout CACHE_TTL;
     modify (with_stats (set_cacheTimeout (Some handle)));;
     Ret stats)
    (fun r w' => r = Ok stats /\ Inv w' /\
       statsCache (stats_js w') = Some stats /\
       statsCacheTimestamp (stats_js w') = now) w.
Proof.
  intros Hw. unfold mbind, Async_bind, initFileWatcher, mbind, Async_bind. simpl.
  destruct (watcher (stats_js w)) as [wh|] eqn:Hwt; simpl; rewrite ?Hwt; simpl;
    destruct (cacheTimeout (stats_js w)) as [t|] eqn:Ht; simpl;
    (split; [done|]); (split; [|done]);
    intros h Hh; simpl in *; f_equal.
  - eapply (timer_replaced (Some t)), Hh. intros h' Hh'. rewrite <- Ht. by apply Hw.
  - eapply (timer_replaced None), Hh. intros h' Hh'. rewrite <- Ht. by apply Hw.
  - eapply (timer_replaced (Some t)), Hh. intros h' Hh'. rewrite <- Ht. by apply Hw.
  - eapply (timer_replaced None), Hh. intros h' Hh'. rewrite <- Ht. by apply Hw.
Qed.

Lemma recompute_keeps (getItemsFn : Async StatsArg) (now : Z) :
  keeps getItemsFn -> keeps (recompute getItemsFn now).
Proof.
  intros Hf w Hw. unfold recompute, mbind at 1, Async_bind at 1.
  apply wp_bind. eapply wp_mono, Hf, Hw. intros [arg|e] w' Hw'; [|done].
  eapply wp_mono, install_keeps, Hw'. by intros r w'' (_ & ? & _).
Qed.

Lemma getCachedStats_keeps (getItemsFn : Async StatsArg) :
  keeps getItemsFn -> keeps (getCachedStats getItemsFn).
Proof.
  intros Hf w Hw. unfold getCachedStats, mbind, Async_bind. simpl.
  destruct (statsCache (stats_js w)); [|by apply recompute_keeps].
  destruct (_ <? _); [done|by apply recompute_keeps].
Qed.

Lemma fmap_keeps {A B} (f : A -> B) (p : Async A) : keeps p -> keeps (f <$> p).
Proof.
  intros Hp w Hw. unfold fmap, Async_fmap. apply wp_bind.
  eapply wp_mono, Hp, Hw. by intros [a|e] w' Hw'.
Qed.

Lemma app_keeps req : keeps (app req).
Proof.
  destruct req as [query|idParam|]; simpl.
  - apply fmap_keeps. intros w Hw.
    unfold Handlers.getItemsHandler, mbind, Async_bind. apply wp_bind.
    eapply wp_mono, getItems_keeps, Hw. by intros [a|e] w' Hw'.
  - apply fmap_keeps. intros w Hw.
    unfold Handlers.getItemHandler, mbind, Async_bind. apply wp_bind.
    eapply wp_mono, getItems_keeps, Hw. intros [a|e] w' Hw'; [|done].
    by destruct (List.find _ a).
  - apply fmap_keeps, getCachedStats_keeps, fmap_keeps, getItems_keeps.
Qed.

End TimerInvariant.

Section ServerInvariant.

Import Server.

Context {Req A : Type} (handler : Req -> Async A) (I : World -> Prop).

Hypothesis handler_keeps : forall req, Keeps I (handler req).
Hypothesis advance_keeps : forall dt w, I w -> I (with_host (advance dt) w).
Hypothesis fire_keeps : forall h w, I w -> I (fireTimer h w).
Hypothesis change_keeps :
  forall r w, I w -> I (notifyWatchers "change" (with_host (writeFile r) w)).

Lemma run_safe (p : Async A) w :
  wp I p (fun _ w' => I w') w ->
  I (fst (run p w)) /\ CallSafe I (snd (run p w)).
Proof.
  intros Hp. apply wp_run in Hp. destruct (run p w) as [w' [r|k]]; simpl; [done|].
  destruct Hp as [Hw' Hk]. done.
Qed.

Lemma step_safe (s : State A) (ev : Event Req) :
  StateSafe I s -> StateSafe I (step handler s ev).
Proof.
  intros [Hw Hcalls]. destruct ev as [req|i r|dt|h|r]; simpl.
  - destruct (run_safe (handler req) (world s)) as [Hw' Hc];
      [by apply handler_keeps|].
    destruct (run (handler req) (world s)) as [w' c]. split; [done|].
    apply Forall_app. split; [done|]. by constructor.
  - destruct (calls s !! i) as [[res|k]|] eqn:Hi; try done.
    pose proof (Forall_lookup_1 _ _ _ _ Hcalls Hi) as Hk. simpl in Hk.
    destruct (run_safe (k r) (world s)) as [Hw' Hc]; [by apply Hk|].
    destruct (run (k r) (world s)) as [w' c]. split; [done|].
    by apply Forall_insert.
  - split; [by apply advance_keeps|done].
  - split; [by apply fire_keeps|done].
  - split; [by apply change_keeps|done].
Qed.

Lemma exec_safe (s : State A) (evs : list (Event Req)) :
  StateSafe I s -> StateSafe I (exec handler s evs).
Proof.
  revert s. induction evs as [|ev evs IH]; intros s Hs; [done|].
  apply IH, step_safe, Hs.
Qed.

End ServerInvariant.

Section Reachable.

Import Server StatsService.

Lemma fireTimer_TimersTracked h w : TimersTracked w -> TimersTracked (fireTimer h w).
Proof.
  intros Hw. unfold fireTimer.
  destruct (timers (host w) !! h) as [due|]; [|done].
  destruct (due <=? clock (host w)); [|done].
  intros h' [d Hd]. simpl in *.
  apply lookup_delete_Some in Hd as [_ Hd]. apply Hw. eauto.
Qed.

Lemma onWatchEvent_TimersTracked ev w :
  TimersTracked w -> TimersTracked (fst (complete (onWatchEvent ev) w)).
Proof.
  intros Hw.
  apply (wp_complete TimersTracked (onWatchEvent ev) (fun _ w' => TimersTracked w')).
  unfold onWatchEvent. destruct (decide _); [|done].
  unfold mbind, Async_bind. apply wp_bind.
  unfold console_write, modify. cbn [wp].
  apply invalidateCache_keeps. by eapply TimersTracked_frame, Hw.
Qed.

Lemma notifyWatchers_TimersTracked ev w :
  TimersTracked w -> TimersTracked (notifyWatchers ev w).
Proof.
  intros Hw. unfold notifyWatchers.
  induction (elements (watchers (host w))) as [|h hs IH]; [done|].
  simpl. by apply onWatchEvent_TimersTracked.
Qed.

(** The timer invariant holds in every world the server reaches. *)
Lemma reachable_TimersTracked w : reachable w -> TimersTracked w.
Proof.
  intros (file & now & evs & ->).
  apply (exec_safe app TimersTracked).
  - apply app_keeps.
  - intros dt w Hw. by eapply TimersTracked_frame, Hw.
  - apply fireTimer_TimersTracked.
  - intros r w Hw. apply notifyWatchers_TimersTracked.
    by eapply TimersTracked_frame, Hw.
  - split; [|constructor]. intros h [d Hd]. simpl in Hd.
    by rewrite lookup_empty in Hd.
Qed.

End Reachable.

Section ItemCacheClaims.

Import ItemsRoute.

(** C7.  When a call of [getItems] has loaded a snapshot, a later call made
    while [now - timestamp < CACHE_TTL] (the timestamp being the time of the
    loading call) returns the same snapshot and leaves the world as it is: no
    read is started.  An entry is valid exactly when it is present and
    [now - timestamp < CACHE_TTL]; a call that finds it invalid starts a read
    and returns only what that read produced. *)
Theorem getItems_cached_until_ttl (w0 w1 : World) (snapshot : list Item) :
  cacheValid (items_js w0) (clock (host w0)) = false ->
  complete getItems w0 = (w1, Ok snapshot) ->
  (reads (host w1) = S (reads (host w0)) /\
   itemsCache (items_js w1) = Some snapshot /\
   itemsCacheTimestamp (items_js w1) = clock (host w0)) /\
  (forall w2,
     items_js w2 = items_js w1 ->
     clock (host w2) - clock (host w0) < CACHE_TTL ->
     complete getItems w2 = (w2, Ok snapshot) /\
     run getItems w2 = (w2, Settled (Ok snapshot))) /\
  (forall m now,
     cacheValid m now = true <->
     exists cached, itemsCache m = Some cached /\
       now - itemsCacheTimestamp m < CACHE_TTL) /\
  (forall w w' r,
     cacheValid (items_js w) (clock (host w)) = false ->
     complete getItems w = (w', r) ->
     reads (host w') = S (reads (host w)) /\
     match r with
     | Ok loaded =>
         dataFile (host w) = ReadResolved (ItemsJSON loaded) /\
         itemsCache (items_js w') = Some loaded /\
         itemsCacheTimestamp (items_js w') = clock (host w)
     | Err _ => items_js w' = items_js w
     end).
Proof.
  intros Hinvalid Hload.
  assert (forall w w' r,
     cacheValid (items_js w) (clock (host w)) = false ->
     complete getItems w = (w', r) ->
     reads (host w') = S (reads (host w)) /\
     match r with
     | Ok loaded =>
         dataFile (host w) = ReadResolved (ItemsJSON loaded) /\
         itemsCache (items_js w') = Some loaded /\
         itemsCacheTimestamp (items_js w') = clock (host w)
     | Err _ => items_js w' = items_js w
     end) as Hrefresh.
  { intros w w' r Hw. rewrite (complete_getItems_miss w Hw). unfold loadOutcome.
    destruct (dataFile (host w)) as [msg|[|loaded]]; intros [= <- <-]; done. }
  destruct (Hrefresh _ _ _ Hinvalid Hload) as (Hreads & _ & Hcache & Hts).
  split; [done|]. split; [|split; [apply cacheValid_iff|exact Hrefresh]].
  intros w2 Hsame Hfresh. rewrite <- Hsame in Hcache, Hts.
  split.
  - apply complete_getItems_hit; [done|]. by rewrite Hts.
  - apply run_getItems_hit; [done|]. by rewrite Hts.
Qed.

(** C3, as the code has it.  When the entry is stale, a snapshot is cached
    and the reload fails, [getItems] logs the failure and throws
    [Failed to read items data]; the stale snapshot stays in the cache and is
    not served. *)
Theorem stale_reload_failure_throws (w : World) (cached : list Item) :
  itemsCache (items_js w) = Some cached ->
  cacheValid (items_js w) (clock (host w)) = false ->
  reloadFails w ->
  exists w',
    complete getItems w = (w', Err (mkError "Failed to read items data")) /\
    items_js w' = items_js w /\
    reads (host w') = S (reads (host w)) /\
    console (host w') = console (host w) ++ ["Error reading items file:"%string].
Proof.
  intros Hcached Hstale Hfails.
  rewrite (complete_getItems_miss w Hstale). unfold loadOutcome.
  destruct (dataFile (host w)) as [msg|[|loaded]] eqn:Hfile.
  - eexists. split; [reflexivity|]. done.
  - eexists. split; [reflexivity|]. done.
  - by destruct (Hfails loaded).
Qed.

End ItemCacheClaims.

Section Burst.

Import Server.

Context {Req A : Type} (handler : Req -> Async A) (req : Req).
Context (P : World -> Prop) (K : (FileRead -> Async A) -> Prop).

Hypothesis P_countRead : forall w, P w -> P (with_host countRead w).
Hypothesis starts_read :
  forall w, P w ->
    exists k, run (handler req) w = (with_host countRead w, Suspended k) /\ K k.

Lemma inFlight_app (w w' : World) (cs cs' : list (Call A)) :
  inFlight {| world := w; calls := cs ++ cs' |} =
  (inFlight {| world := w'; calls := cs |} +
   inFlight {| world := w'; calls := cs' |})%nat.
Proof. unfold inFlight. simpl. by rewrite List.filter_app, length_app. Qed.

Lemma inFlight_suspended (w : World) (cs : list (Call A)) :
  Forall (SuspendedWith K) cs ->
  inFlight {| world := w; calls := cs |} = length cs.
Proof.
  unfold inFlight. simpl. induction 1 as [|c cs Hc _ IH]; [done|].
  destruct c as [r|k]; [done|]. simpl. by rewrite IH.
Qed.

(** A burst of [n] requests, each arriving before any read settles: each
    call starts a read of its own and is suspended on it. *)
Lemma burst (n : nat) (s : State A) :
  P (world s) ->
  exists new,
    exec handler s (replicate n (Invoke req)) =
      {| world := Nat.iter n (with_host countRead) (world s);
         calls := calls s ++ new |} /\
    length new = n /\ Forall (SuspendedWith K) new.
Proof.
  revert s. induction n as [|n IH]; intros s Hs.
  - exists []. rewrite app_nil_r. by destruct s.
  - cbn [replicate exec fold_left step].
    destruct (starts_read _ Hs) as (k & -> & Hk).
    destruct (IH {| world := with_host countRead (world s);
                    calls := calls s ++ [Suspended k] |}) as (new & Hexec & Hlen & Hnew).
    { by apply P_countRead. }
    exists (Suspended k :: new). unfold exec in Hexec. rewrite Hexec.
    cbn [world calls]. rewrite <- app_assoc, Nat.iter_succ_r.
    repeat split; [simpl; by rewrite Hlen|]. by constructor.
Qed.

Lemma reads_iter_countRead (n : nat) (w : World) :
  reads (host (Nat.iter n (with_host countRead) w)) = (reads (host w) + n)%nat /\
  items_js (Nat.iter n (with_host countRead) w) = items_js w /\
  stats_js (Nat.iter n (with_host countRead) w) = stats_js w.
Proof.
  induction n as [|n (IH1 & IH2 & IH3)]; simpl; [repeat split; lia|].
  rewrite IH1. repeat split; [lia|done|done].
Qed.

End Burst.

Section StatsRun.

Import StatsService.

Lemma run_mbind {A B : Type} (p : Async A) (f : A -> Async B) w :
  run (p ≫= f) w =
  match run p w with
  | (w', Settled (Ok a)) => run (f a) w'
  | (w', Settled (Err e)) => (w', Settled (Err e))
  | (w', Suspended k) => (w', Suspended (fun r => k r ≫= f))
  end.
Proof. apply run_bind. Qed.

Lemma run_fmap {A B : Type} (f : A -> B) (p : Async A) w :
  run (f <$> p) w =
  match run p w with
  | (w', Settled (Ok a)) => (w', Settled (Ok (f a)))
  | (w', Settled (Err e)) => (w', Settled (Err e))
  | (w', Suspended k) => (w', Suspended (fun r => f <$> k r))
  end.
Proof. unfold fmap, Async_fmap. by rewrite run_bind. Qed.

Lemma getCachedStats_valid (getItemsFn : Async StatsArg) w :
  cacheValid (stats_js w) (clock (host w)) = true ->
  exists cached,
    statsCache (stats_js w) = Some cached /\
    run (getCachedStats getItemsFn) w = (w, Settled (Ok cached)) /\
    complete (getCachedStats getItemsFn) w = (w, Ok cached).
Proof.
  unfold cacheValid, getCachedStats, mbind, Async_bind. simpl.
  destruct (statsCache (stats_js w)) as [cached|]; [|done].
  intros ->. by exists cached.
Qed.

Lemma getCachedStats_invalid (getItemsFn : Async StatsArg) w :
  cacheValid (stats_js w) (clock (host w)) = false ->
  run (getCachedStats getItemsFn) w = run (recompute getItemsFn (clock (host w))) w /\
  complete (getCachedStats getItemsFn) w =
    complete (recompute getItemsFn (clock (host w))) w.
Proof.
  unfold cacheValid, getCachedStats, mbind, Async_bind. simpl.
  destruct (statsCache (stats_js w)) as [cached|]; [|done].
  by intros ->.
Qed.

Lemma run_recompute (getItemsFn : Async StatsArg) (now : Z) w :
  run (recompute getItemsFn now) w =
  match run getItemsFn w with
  | (w', Settled (Ok arg)) => run (recompute (Ret arg) now) w'
  | (w', Settled (Err e)) => (w', Settled (Err e))
  | (w', Suspended k) => (w', Suspended (fun r => recompute (k r) now))
  end.
Proof.
  unfold recompute. rewrite run_mbind.
  by destruct (run getItemsFn w) as [w' [[arg|e]|k]].
Qed.

Lemma TimersTracked_cleared w :
  TimersTracked w ->
  match cacheTimeout (stats_js w) with
  | Some old => delete old (timers (host w))
  | None => timers (host w)
  end = ∅.
Proof.
  intros Hw. apply map_empty. intros h.
  destruct (cacheTimeout (stats_js w)) as [old|] eqn:Hold.
  - destruct (decide (h = old)) as [->|Hne]; [apply lookup_delete_eq|].
    rewrite lookup_delete_ne by done.
    destruct (timers (host w) !! h) eqn:Hh; [|done].
    specialize (Hw h (mk_is_Some _ _ Hh)). congruence.
  - destruct (timers (host w) !! h) eqn:Hh; [|done].
    specialize (Hw h (mk_is_Some _ _ Hh)). congruence.
Qed.

(** The statements of [getCachedStats] that follow [await getItemsFn()]:
    what they install. *)
Lemma run_install (arg : StatsArg) (now : Z) w :
  exists w',
    run (recompute (Ret arg) now) w = (w', Settled (Ok (calculateStats arg))) /\
    statsCache (stats_js w') = Some (calculateStats arg) /\
    statsCacheTimestamp (stats_js w') = now /\
    items_js w' = items_js w /\
    clock (host w') = clock (host w) /\
    reads (host w') = reads (host w) /\
    dataFile (host w') = dataFile (host w) /\
    exists h,
      cacheTimeout (stats_js w') = Some h /\
      timers (host w') =
        <[h := clock (host w) + CACHE_TTL]>
          (match cacheTimeout (stats_js w) with
           | Some old => delete old (timers (host w))
           | None => timers (host w)
           end).
Proof.
  unfold recompute, mbind, Async_bind, initFileWatcher, mbind, Async_bind. simpl.
  destruct (watcher (stats_js w)) as [wh|] eqn:Hwt; simpl; rewrite ?Hwt; simpl;
    destruct (cacheTimeout (stats_js w)) as [t|] eqn:Ht; simpl;
    eexists; (split; [reflexivity|]); simpl; repeat (split; [done|]);
    eexists; split; reflexivity.
Qed.

End StatsRun.

Section Concurrency.

Import ItemsRoute Server.

Lemma getItems_starts_read now w :
  itemsStaleAt now w ->
  exists k, run (itemsServer tt) w = (with_host countRead w, Suspended k) /\
    forall r w', run (k r) w' = settleItems now r w'.
Proof.
  intros [Hstale <-]. unfold itemsServer.
  rewrite (run_getItems_miss _ Hstale).
  destruct (run_reload (clock (host w)) w) as (k & -> & Hk). by exists k.
Qed.

Lemma getStats_starts_read now w :
  bothStale w /\ clock (host w) = now ->
  exists k, run (app GetStats) w = (with_host countRead w, Suspended k) /\
    SettlesStats now k.
Proof.
  intros [[Hitems Hstats] <-].
  cbn [app]. unfold Handlers.getStatsHandler. rewrite run_fmap.
  destruct (getCachedStats_invalid (ArgArray <$> getItems) w Hstats) as [-> _].
  rewrite run_recompute, run_fmap, (run_getItems_miss w Hitems).
  destruct (run_reload (clock (host w)) w) as (k & -> & Hk).
  eexists. split; [reflexivity|].
  intros r w'. cbv beta.
  rewrite run_fmap, run_recompute, run_fmap, Hk.
  destruct r as [msg|[|loaded]]; cbn [settleItems]; [reflexivity|reflexivity|].
  destruct (run_install (ArgArray loaded) (clock (host w))
              (with_items (fun _ => {| itemsCache := Some loaded;
                                       itemsCacheTimestamp := clock (host w) |}) w'))
    as (w4 & -> & Hcache & Hts & Hitems4 & _).
  exists w4, (Settled (Ok (StatsBody (calculateStats (ArgArray loaded))))).
  split; [reflexivity|]. rewrite Hitems4. done.
Qed.

(** C9, as the code has it.  There is no in-flight marker in either cache.
    [n] calls of [getItems] that start while the entry is stale start [n]
    reads, all [n] are in flight together, and each call, when its read
    settles, installs and returns what its own read produced, or throws for
    its own failure.  Likewise [n] requests for the statistics that arrive
    while both caches are stale start [n] reads, all in flight together,
    and each request, when its read settles, installs the records it read
    itself and their statistics and, a watcher being open, answers with
    these statistics, or throws for its own failure. *)
Theorem concurrent_calls_each_load (w : World) (n : nat) :
  cacheValid (items_js w) (clock (host w)) = false ->
  (let s := exec itemsServer {| world := w; calls := [] |}
              (replicate n (Invoke tt)) in
   reads (host (world s)) = (reads (host w) + n)%nat /\
   inFlight s = n /\
   length (calls s) = n /\
   items_js (world s) = items_js w /\
   forall i c, calls s !! i = Some c ->
     exists k, c = Suspended k /\
       forall r w', run (k r) w' = settleItems (clock (host w)) r w') /\
  (StatsService.cacheValid (stats_js w) (clock (host w)) = false ->
   let s := exec app {| world := w; calls := [] |}
              (replicate n (Invoke GetStats)) in
   reads (host (world s)) = (reads (host w) + n)%nat /\
   inFlight s = n /\
   length (calls s) = n /\
   stats_js (world s) = stats_js w /\
   items_js (world s) = items_js w /\
   forall i c, calls s !! i = Some c ->
     exists k, c = Suspended k /\ SettlesStats (clock (host w)) k).
Proof.
  intros Hitems. split.
  - destruct (burst itemsServer tt (itemsStaleAt (clock (host w)))
                (fun k => forall r w', run (k r) w' = settleItems (clock (host w)) r w')
                ltac:(done) (getItems_starts_read (clock (host w)))
                n {| world := w; calls := [] |})
      as (new & Hexec & Hlen & Hnew); [done|].
    cbn zeta. rewrite Hexec. cbn [world calls app].
    destruct (reads_iter_countRead n w) as (Hr & Hi & _).
    rewrite (inFlight_suspended _ _ _ Hnew).
    repeat split; try done.
    intros i c Hc. pose proof (Forall_lookup_1 _ _ _ _ Hnew Hc) as HK.
    destruct c as [r|k]; [done|]. eauto.
  - intros Hstats.
    destruct (burst app GetStats
                (fun w' => bothStale w' /\ clock (host w') = clock (host w))
                (SettlesStats (clock (host w)))
                ltac:(done) (getStats_starts_read (clock (host w)))
                n {| world := w; calls := [] |})
      as (new & Hexec & Hlen & Hnew); [done|].
    cbn zeta. rewrite Hexec. cbn [world calls app].
    destruct (reads_iter_countRead n w) as (Hr & Hi & Hs).
    rewrite (inFlight_suspended _ _ _ Hnew).
    split; [done|]. split; [done|]. split; [done|]. split; [done|].
    split; [done|].
    intros i c Hc. pose proof (Forall_lookup_1 _ _ _ _ Hnew Hc) as HK.
    destruct c as [r|k]; [done|]. eauto.
Qed.

End Concurrency.

Section StatsCacheClaims.

Import StatsService.

Lemma install_result (stats : Stats) (now : Z) w :
  wp (fun _ => True)
    (modify (with_stats (set_cache (Some stats) now));;
     w ← gets (fun w => watcher (stats_js w));
     match w with
     | None => initFileWatcher
     | Some _ => Ret tt
     end;;
     t ← gets (fun w => cacheTimeout (stats_js w));
     match t with
     | Some handle => clearTimeout handle
     | None => Ret tt
     end;;
     handle ← setTimeout CACHE_TTL;
     modify (with_stats (set_cacheTimeout (Some handle)));;
     Ret stats)
    (fun r w' => r = Ok stats /\
       statsCache (stats_js w') = Some stats /\
       statsCacheTimestamp (stats_js w') = now) w.
Proof.
  unfold mbind, Async_bind, initFileWatcher, mbind, Async_bind. simpl.
  destruct (watcher (stats_js w)) as [wh|] eqn:Hwt; simpl; rewrite ?Hwt; simpl;
    by destruct (cacheTimeout (stats_js w)).
Qed.

Lemma complete_recompute (getItemsFn : Async StatsArg) (now : Z) w :
  match complete getItemsFn w with
  | (_, Ok arg) =>
      snd (complete (recompute getItemsFn now) w) = Ok (calculateStats arg) /\
      statsCache (stats_js (fst (complete (recompute getItemsFn now) w))) =
        Some (calculateStats arg) /\
      statsCacheTimestamp (stats_js (fst (complete (recompute getItemsFn now) w))) =
        now
  | (_, Err e) => snd (complete (recompute getItemsFn now) w) = Err e
  end.
Proof.
  assert (forall (f : StatsArg -> Async Stats),
    complete (getItemsFn ≫= f) w =
    match complete getItemsFn w with
    | (w', Ok a) => complete (f a) w'
    | (w', Err e) => (w', Err e)
    end) as Hbind by (intros f; apply complete_bind).
  unfold recompute. rewrite Hbind.
  destruct (complete getItemsFn w) as [w' [arg|e]]; [|done].
  exact (wp_complete _ _ _ _ (install_result (calculateStats arg) now w')).
Qed.

Lemma complete_getCachedStats_empty (getItemsFn : Async StatsArg) w :
  statsCache (stats_js w) = None ->
  complete (getCachedStats getItemsFn) w =
  complete (recompute getItemsFn (clock (host w))) w.
Proof.
  intros Hnone. unfold getCachedStats, mbind, Async_bind. simpl. by rewrite Hnone.
Qed.

(** C8.  In every world the server reaches, [invalidateCache] leaves the
    cached statistics cleared and no expiry timer pending; the next
    [getCachedStats], whatever the clock shows, calls [getItemsFn] and
    caches [calculateStats] of what it returned, dated at the call; a
    watcher being open, it answers with these statistics; and it throws
    what [getItemsFn] throws. *)
Theorem invalidateCache_forces_recompute (w : World) :
  reachable w ->
  let w1 := fst (complete invalidateCache w) in
  (statsCache (stats_js w1) = None /\
   statsCacheTimestamp (stats_js w1) = 0 /\
   cacheTimeout (stats_js w1) = None /\
   timers (host w1) = ∅) /\
  forall (getItemsFn : Async StatsArg) (w2 : World),
    stats_js w2 = stats_js w1 ->
    match complete getItemsFn w2 with
    | (w3, Ok arg) =>
        statsCache (stats_js (fst (complete (getCachedStats getItemsFn) w2))) =
          Some (calculateStats arg) /\
        statsCacheTimestamp
          (stats_js (fst (complete (getCachedStats getItemsFn) w2))) =
          clock (host w2) /\
        (is_Some (watcher (stats_js w3)) ->
         snd (complete (getCachedStats getItemsFn) w2) = Ok (calculateStats arg))
    | (_, Err e) => snd (complete (getCachedStats getItemsFn) w2) = Err e
    end.
Proof.
  intros Hw%reachable_TimersTracked. cbn zeta.
  assert (statsCache (stats_js (fst (complete invalidateCache w))) = None /\
          statsCacheTimestamp (stats_js (fst (complete invalidateCache w))) = 0 /\
          cacheTimeout (stats_js (fst (complete invalidateCache w))) = None /\
          timers (host (fst (complete invalidateCache w))) = ∅) as Hcleared.
  { unfold invalidateCache, mbind, Async_bind. simpl.
    destruct (cacheTimeout (stats_js w)) as [t|] eqn:Ht; simpl;
      repeat split; try done; apply map_eq; intros h; rewrite lookup_empty.
    - destruct (decide (h = t)) as [->|Hne]; [apply lookup_delete_eq|].
      rewrite lookup_delete_ne by done.
      destruct (timers (host w) !! h) eqn:Hh; [|done].
      specialize (Hw h (mk_is_Some _ _ Hh)). congruence.
    - destruct (timers (host w) !! h) eqn:Hh; [|done].
      specialize (Hw h (mk_is_Some _ _ Hh)). congruence. }
  split; [exact Hcleared|].
  intros getItemsFn w2 Hsame.
  rewrite complete_getCachedStats_empty by (rewrite Hsame; apply Hcleared).
  pose proof (complete_recompute getItemsFn (clock (host w2)) w2) as Hnext.
  destruct (complete getItemsFn w2) as [w3 [arg|e]]; [|done].
  destruct Hnext as (Hanswer & Hcache & Hts). done.
Qed.

End StatsCacheClaims.

Section AggregatorClaims.

(** C10.  For every value that is not an array ([undefined], [null], a
    boolean, a number, a string, a plain object) [calculateStats] returns the
    zero statistics; the function is total, it never throws. *)
Theorem calculateStats_not_an_array (v : JSValue) :
  calculateStats (ArgOther v) =
  {| totalItems := 0; averagePrice := ofZ 0; minPrice := ofZ 0;
     maxPrice := ofZ 0; categories := ∅ |}.
Proof. reflexivity. Qed.

Lemma parseablePrices_notNaN items : Forall notNaN (parseablePrices items).
Proof.
  unfold parseablePrices. apply Forall_forall. intros p Hp.
  apply list_elem_of_In, filter_In in Hp as [_ Hp].
  by apply negb_true_iff in Hp.
Qed.

(** What [calculateStats] computes for an array of records. *)
Theorem calculateStats_aggregates (items : list Item) :
  let stats := calculateStats (ArgArray items) in
  let prices := parseablePrices items in
  totalItems stats = length items /\
  (Forall (fun item => inheritedName (categoryKey item) = false) items ->
   Counts (categories stats) (fun key => countKey key items)) /\
  (prices = [] ->
   averagePrice stats = ofZ 0 /\ minPrice stats = ofZ 0 /\ maxPrice stats = ofZ 0) /\
  (prices <> [] ->
   minPrice stats ∈ prices /\ Forall (le (minPrice stats)) prices /\
   maxPrice stats ∈ prices /\ Forall (fun p => le p (maxPrice stats)) prices) /\
  (forall qs, prices = Fin <$> qs -> qs <> [] ->
     (Qabs (Qmean qs) < inject_Z (10 ^ 21))%Q ->
     averagePrice stats = Fin (Qred (roundHalfAway (Qmean qs))) /\
     (Qabs (Qred (roundHalfAway (Qmean qs)) - Qmean qs) <= 1 # 200)%Q /\
     exists z : Z, (Qred (roundHalfAway (Qmean qs)) == Qmake z 100)%Q) /\
  (items = [] -> stats = zeroStats).
Proof.
  cbn zeta. destruct items as [|item items].
  { simpl. split; [done|]. split; [intros _ key; by rewrite lookup_empty|].
    split; [done|]. split; [done|]. split; [|done].
    intros qs Hqs Hne. by destruct qs. }
  set (all := item :: items). 
  assert (calculateStats (ArgArray all) =
    {| totalItems := length all;
       averagePrice :=
         if (0 <? length (parseablePrices all))%nat
         then roundTo2 (div (fold_left add (parseablePrices all) (ofZ 0))
                            (ofNat (length (parseablePrices all))))
         else ofZ 0;
       minPrice := if (0 <? length (parseablePrices all))%nat
                   then Math_min (parseablePrices all) else ofZ 0;
       maxPrice := if (0 <? length (parseablePrices all))%nat
                   then Math_max (parseablePrices all) else ofZ 0;
       categories := fold_left countCategory all ∅ |}) as -> by done.
  cbn [totalItems averagePrice minPrice maxPrice categories].
  pose proof (parseablePrices_notNaN all) as Hnn.
  split; [done|]. split; [apply categories_counts|].
  destruct (parseablePrices all) as [|p prices] eqn:Hprices.
  - simpl. split; [done|]. split; [done|]. split; [|done].
    intros qs Hqs Hne. by destruct qs.
  - change ((0 <? length (p :: prices))%nat) with true. cbv iota.
    split; [done|]. split.
    + intros _.
      destruct (Math_min_least (p :: prices) Hnn) as [? ?]; [done|].
      destruct (Math_max_greatest (p :: prices) Hnn) as [? ?]; [done|]. done.
    + split; [|done]. intros qs Hqs Hne Hbound. rewrite Hqs.
      split; [by apply average_finite|]. split.
      * rewrite Qred_correct. apply roundHalfAway_close.
      * destruct (roundHalfAway_hundredths (Qmean qs)) as [z ->].
        exists z. apply Qred_correct.
Qed.

End AggregatorClaims.

Section Examples.

(** The searches of the test suite. *)
Example filterItems_tests :
  filterItems catalogue "laptop" = [laptop] /\
  filterItems catalogue "wireless" = [mouse] /\
  filterItems catalogue "furniture" = [desk] /\
  filterItems catalogue EmptyString = catalogue /\
  filterItems catalogue "LAPTOP" = [laptop] /\
  filterItems catalogue "  e " = [laptop; mouse; desk] /\
  filterItems catalogue "nonexistentxyz123" = [].
Proof. repeat split; reflexivity. Qed.

(** The statistics of the test suite: prices 100, 200 and 150 under the
    categories A, A and B. *)
Example calculateStats_test :
  calculateStats (ArgArray
    [ {| id := 1; name := Some "Item 1"%string; description := None;
         category := Some "A"%string; price := VNumber (ofZ 100) |};
      {| id := 2; name := Some "Item 2"%string; description := None;
         category := Some "A"%string; price := VNumber (ofZ 200) |};
      {| id := 3; name := Some "Item 3"%string; description := None;
         category := Some "B"%string; price := VNumber (ofZ 150) |} ]) =
  {| totalItems := 3; averagePrice := ofZ 150; minPrice := ofZ 100;
     maxPrice := ofZ 200;
     categories := {[ "A"%string := PNumber (ofZ 2); "B"%string := PNumber (ofZ 1) ]} |}.
Proof. vm_compute. reflexivity. Qed.

(** Records without a usable price or category. *)
Example calculateStats_unparseable :
  calculateStats (ArgArray
    [ {| id := 1; name := None; description := None;
         category := None; price := VString "n/a" |};
      {| id := 2; name := None; description := None;
         category := Some EmptyString; price := VUndefined |} ]) =
  {| totalItems := 2; averagePrice := ofZ 0; minPrice := ofZ 0;
     maxPrice := ofZ 0;
     categories := {[ "uncategorized"%string := PNumber (ofZ 2) ]} |}.
Proof. vm_compute. reflexivity. Qed.

(** Look-ups by identifier: a decimal one, one nobody has, one that is not
    a number, a hexadecimal one. *)
Example getItemHandler_tests :
  snd (complete (Handlers.getItemHandler "1") coldWorld) = Ok (Handlers.Found laptop) /\
  snd (complete (Handlers.getItemHandler "999999") coldWorld) = Ok Handlers.NotFound /\
  snd (complete (Handlers.getItemHandler "invalid") coldWorld) = Ok Handlers.NotFound /\
  snd (complete (Handlers.getItemHandler "0x2") coldWorld) = Ok (Handlers.Found mouse).
Proof. repeat split; reflexivity. Qed.

(** Pages of forty-five records, twenty to a page. *)
Example pagination_test :
  let page n := Handlers.respond
    {| Handlers.page := Some n; Handlers.limit := Some "20"%string;
       Handlers.q := None |} fortyFive in
  Handlers.totalPages (Handlers.pagination (page "3"%string)) = ofZ 3 /\
  length (Handlers.items (page "3"%string)) = 5%nat /\
  Handlers.items (page "4"%string) = [] /\
  Handlers.totalPages (Handlers.pagination (page "4"%string)) = ofZ 3 /\
  Handlers.totalItems (Handlers.pagination (page "4"%string)) = 45%nat.
Proof. vm_compute. repeat split; reflexivity. Qed.

End Examples.

Section Witnesses.

Lemma filterItems_matches_witness :
  blank " LapTop " = false /\
  filterItems catalogue " LapTop " = filter (Matches " LapTop ") catalogue /\
  filter (Matches " LapTop ") catalogue = [laptop].
Proof.
  split; [reflexivity|]. split; [|reflexivity].
  apply (filterItems_matches catalogue " LapTop "). reflexivity.
Defined.

Lemma filterItems_blank_query_witness :
  blank "   " = true /\ filterItems catalogue "   " = catalogue.
Proof.
  split; [reflexivity|].
  apply (filterItems_blank_query catalogue "   "). reflexivity.
Defined.

Lemma page_beyond_last_witness :
  let req := {| Handlers.page := Some "4"%string;
                Handlers.limit := Some "20"%string; Handlers.q := None |} in
  Handlers.totalPages (Handlers.pagination (Handlers.respond req fortyFive)) = ofZ 3 /\
  Handlers.totalItems (Handlers.pagination (Handlers.respond req fortyFive)) = 45%nat /\
  Handlers.items (Handlers.respond req fortyFive) = [].
Proof.
  cbn zeta.
  destruct (page_beyond_last fortyFive
              {| Handlers.page := Some "4"%string;
                 Handlers.limit := Some "20"%string; Handlers.q := None |}
              4 20 eq_refl eq_refl eq_refl eq_refl)
    as (Htotal & Hpages & _ & _ & Hbeyond & _).
  split; [exact Hpages|]. split; [exact Htotal|].
  apply Hbeyond. reflexivity.
Defined.

Lemma getItems_cached_until_ttl_witness :
  let w1 := fst (complete ItemsRoute.getItems coldWorld) in
  let w2 := with_host (Server.advance 29999) w1 in
  complete ItemsRoute.getItems coldWorld = (w1, Ok catalogue) /\
  complete ItemsRoute.getItems w2 = (w2, Ok catalogue) /\
  reads (host w2) = 1%nat.
Proof.
  cbn zeta. split; [reflexivity|].
  destruct (getItems_cached_until_ttl coldWorld
              (fst (complete ItemsRoute.getItems coldWorld)) catalogue
              eq_refl eq_refl) as (_ & Hhit & _).
  split; [|reflexivity].
  apply Hhit; reflexivity.
Defined.

Lemma stale_reload_failure_throws_witness :
  exists w',
    complete ItemsRoute.getItems staleWorld =
      (w', Err (mkError "Failed to read items data")) /\
    items_js w' = items_js staleWorld /\
    reads (host w') = S (reads (host staleWorld)) /\
    console (host w') =
      console (host staleWorld) ++ ["Error reading items file:"%string].
Proof.
  apply (stale_reload_failure_throws staleWorld [laptop]);
    [reflexivity | reflexivity | intros loaded; discriminate].
Defined.

Lemma servedWorld_reachable : reachable servedWorld.
Proof. eexists _, _, _. reflexivity. Defined.

Lemma invalidateCache_forces_recompute_witness :
  StatsService.cacheValid (stats_js servedWorld) (clock (host servedWorld)) = true /\
  size (timers (host servedWorld)) = 1%nat /\
  let w1 := fst (complete StatsService.invalidateCache servedWorld) in
  statsCache (stats_js w1) = None /\ timers (host w1) = ∅ /\
  snd (complete (StatsService.getCachedStats (Ret (ArgArray [desk]))) w1) =
    Ok (calculateStats (ArgArray [desk])).
Proof.
  split; [reflexivity|]. split; [reflexivity|]. cbn zeta.
  destruct (invalidateCache_forces_recompute servedWorld servedWorld_reachable)
    as [(Hcache & _ & _ & Htimers) Hnext].
  split; [exact Hcache|]. split; [exact Htimers|].
  destruct (Hnext (Ret (ArgArray [desk])) _ eq_refl) as (_ & _ & Hanswer).
  apply Hanswer. eexists. reflexivity.
Defined.

Lemma concurrent_calls_each_load_witness :
  let s := Server.exec itemsServer
             {| Server.world := expiredWorld; Server.calls := [] |}
             [Server.Invoke tt; Server.Invoke tt] in
  let s' := Server.exec app
              {| Server.world := expiredWorld; Server.calls := [] |}
              [Server.Invoke GetStats; Server.Invoke GetStats] in
  reads (host (Server.world s)) = (reads (host expiredWorld) + 2)%nat /\
  Server.inFlight s = 2%nat /\
  Server.inFlight s' = 2%nat /\
  forall i c, Server.calls s' !! i = Some c ->
    exists k, c = Suspended k /\ SettlesStats (clock (host expiredWorld)) k.
Proof.
  cbn zeta.
  destruct (concurrent_calls_each_load expiredWorld 2 eq_refl)
    as [(Hreads & Hflight & _) Hstats].
  destruct (Hstats eq_refl) as (_ & Hflight' & _ & _ & _ & Hsettle).
  split; [exact Hreads|]. split; [exact Hflight|].
  split; [exact Hflight'|exact Hsettle].
Defined.

End Witnesses.

Section Counterexamples.

(** C3: the stale snapshot is there, the reload fails, and the call throws. *)
Lemma stale_snapshot_not_served :
  itemsCache (items_js staleWorld) = Some [laptop] /\
  ItemsRoute.cacheValid (items_js staleWorld) (clock (host staleWorld)) = false /\
  reloadFails staleWorld /\
  snd (complete ItemsRoute.getItems staleWorld) =
    Err (mkError "Failed to read items data") /\
  ~ ServesStaleOnFailure staleWorld.
Proof.
  assert (reloadFails staleWorld) as Hfails by (intros loaded; discriminate).
  repeat split; try reflexivity; try done.
  intros H. specialize (H [laptop] eq_refl eq_refl Hfails). discriminate H.
Qed.

(** C9: two calls of [getItems] that start while the entry is stale are two
    loads in flight, not one; so are two requests for the statistics that
    arrive at a server that has just started. *)
Lemma two_stale_calls_two_loads :
  let s := Server.exec itemsServer
             {| Server.world := expiredWorld; Server.calls := [] |}
             [Server.Invoke tt; Server.Invoke tt] in
  let s' := Server.exec app
             {| Server.world := coldWorld; Server.calls := [] |}
             [Server.Invoke GetStats; Server.Invoke GetStats] in
  ItemsRoute.cacheValid (items_js expiredWorld) (clock (host expiredWorld)) = false /\
  Server.inFlight s = 2%nat /\
  reads (host (Server.world s)) = (reads (host expiredWorld) + 2)%nat /\
  Server.inFlight s' = 2%nat /\
  reads (host (Server.world s')) = 2%nat /\
  ~ SingleFlight expiredWorld.
Proof.
  cbn zeta. repeat split; try reflexivity.
  intros [Hflight _]. vm_compute in Hflight. lia.
Qed.

(** C2: page 0 of size "abc" is answered, with those values in the
    metadata. *)
Lemma invalid_parameters_used_as_given :
  let req := {| Handlers.page := Some "0"%string;
                Handlers.limit := Some "abc"%string; Handlers.q := None |} in
  let outcome := snd (complete (Handlers.getItemsHandler req) coldWorld) in
  (exists resp, outcome = Ok resp /\
     Handlers.currentPage (Handlers.pagination resp) = ofZ 0 /\
     Handlers.itemsPerPage (Handlers.pagination resp) = NaN /\
     Handlers.totalPages (Handlers.pagination resp) = NaN) /\
  ~ RejectedOrDefaulted outcome.
Proof.
  cbn zeta. split.
  - eexists. split; [reflexivity|]. repeat split; reflexivity.
  - intros [[e He]|(resp & Hresp & Hpage & _)]; [discriminate He|].
    injection Hresp as <-. discriminate Hpage.
Qed.

(** C4: a record filed under "constructor" is not counted: the entry is a
    string. *)
Theorem calculateStats_inherited_category :
  categories (calculateStats (ArgArray [brickSet])) =
    {[ "constructor"%string := PString "function Object() { [native code] }1" ]} /\
  categories (calculateStats (ArgArray [brickSet])) !! "constructor"%string <>
    Some (PNumber (ofNat (countKey "constructor" [brickSet]))) /\
  categories (calculateStats (ArgArray
    [ {| id := 5; name := None; description := None;
         category := Some "__proto__"%string; price := VNull |} ])) = ∅.
Proof. repeat split; try reflexivity. vm_compute. discriminate. Qed.

End Counterexamples.

(* ================================================================== *)
(** * Further properties of the search, the aggregator, the handlers and
      the caches

    As in the embedding of the host, [fs.watch] and [setTimeout] are taken
    to succeed. *)
(* ================================================================== *)

Section SearchProperties.

Implicit Types (s t : string) (items : list Item).

Lemma filterItems_unfold items query :
  filterItems items query =
  if blank query then items
  else List.filter (matchesTerm (trim (toLowerCase query))) items.
Proof.
  destruct (blank query) eqn:Hq; [|by apply filterItems_not_blank].
  unfold filterItems. apply trim_empty_iff in Hq. rewrite Hq.
  by rewrite orb_true_r.
Qed.

Lemma List_filter_idem {A} (f : A -> bool) (l : list A) :
  List.filter f (List.filter f l) = List.filter f l.
Proof.
  induction l as [|x l IH]; [done|]. simpl.
  destruct (f x) eqn:Hx; [|done]. simpl. by rewrite Hx, IH.
Qed.

Lemma List_filter_length {A} (f : A -> bool) (l : list A) :
  (length (List.filter f l) <= length l)%nat.
Proof. induction l as [|x l IH]; simpl; [lia|]. destruct (f x); simpl; lia. Qed.

(** X1.  Searching the result of a search again with the same query changes
    nothing; searching two lists put end to end is searching each and
    putting the results end to end; a search never returns more records
    than it was given. *)
Theorem filterItems_idempotent_app (items more : list Item) (query : string) :
  filterItems (filterItems items query) query = filterItems items query /\
  filterItems (items ++ more) query =
    filterItems items query ++ filterItems more query /\
  (length (filterItems items query) <= length items)%nat.
Proof.
  rewrite !filterItems_unfold. destruct (blank query).
  - repeat split; lia.
  - split; [apply List_filter_idem|].
    split; [apply List.filter_app | apply List_filter_length].
Qed.

Lemma blank_normalised query :
  blank query = true <-> trim (toLowerCase query) = EmptyString.
Proof.
  rewrite toLowerCase_trim, <- trim_empty_iff.
  rewrite <- !isEmpty_true. by rewrite isEmpty_toLowerCase.
Qed.

(** X2.  Two queries that are equal once lower-cased and trimmed give the
    same result: the search does not see the case of the query nor the
    white space around it. *)
Theorem filterItems_query_normalised (items : list Item) (q1 q2 : string) :
  trim (toLowerCase q1) = trim (toLowerCase q2) ->
  filterItems items q1 = filterItems items q2.
Proof.
  intros Heq. rewrite !filterItems_unfold.
  destruct (blank q1) eqn:H1, (blank q2) eqn:H2; try done.
  - apply blank_normalised in H1. rewrite Heq in H1.
    apply blank_normalised in H1. congruence.
  - apply blank_normalised in H2. rewrite <- Heq in H2.
    apply blank_normalised in H2. congruence.
  - by rewrite Heq.
Qed.

Lemma toLowerCase_app s t :
  toLowerCase (s +:+ t) = toLowerCase s +:+ toLowerCase t.
Proof. induction s as [|c s IH]; simpl; [done|]. by rewrite IH. Qed.

Lemma Substring_app_l pre s t : Substring t s -> Substring t (pre +:+ s).
Proof.
  intros (a & b & ->). exists (pre +:+ a), b.
  induction pre as [|c pre IH]; simpl; [done|]. by rewrite IH.
Qed.

Lemma Substring_app_r post s t : Substring t s -> Substring t (s +:+ post).
Proof.
  intros (a & b & ->). exists a, (b +:+ post).
  induction a as [|c a IH]; simpl.
  - induction t as [|d t IHt]; simpl; [done|]. by rewrite IHt.
  - by rewrite IH.
Qed.

Lemma Substring_refl s : Substring s s.
Proof.
  exists EmptyString, EmptyString. simpl.
  induction s as [|c s IH]; simpl; [done|]. by rewrite <- IH.
Qed.

Lemma Substring_trim_toLowerCase s :
  Substring (toLowerCase (trim s)) (toLowerCase s).
Proof.
  destruct (trim_Trimmed s) as (l & r & Hs & _).
  rewrite Hs at 2. rewrite !toLowerCase_app.
  apply Substring_app_l, Substring_app_r, Substring_refl.
Qed.

(** X3.  A record is found by the text of any of its fields: searching for
    the whole name, the whole description or the whole category of a record
    of the list returns that record. *)
Theorem filterItems_finds_field_text (items : list Item) (item : Item) (text : string) :
  item ∈ items ->
  name item = Some text \/ description item = Some text \/ category item = Some text ->
  item ∈ filterItems items text.
Proof.
  intros Hin Hfield. destruct (blank text) eqn:Hblank.
  { by rewrite filterItems_unfold, Hblank. }
  rewrite (filterItems_not_blank _ _ Hblank).
  apply list_elem_of_In, filter_In. split; [by apply list_elem_of_In|].
  apply matchesTerm_Matches. unfold Matches.
  pose proof (Substring_trim_toLowerCase text) as Hsub.
  destruct Hfield as [-> | [-> | ->]]; simpl; auto.
Qed.

Lemma includes_empty_false t : t <> EmptyString -> includes EmptyString t = false.
Proof. by destruct t. Qed.

(** X4.  A record without text (name, description and category absent or
    empty) is never returned for a query that is not blank. *)
Theorem filterItems_skips_textless (items : list Item) (query : string) (item : Item) :
  blank query = false ->
  item ∈ filterItems items query ->
  ~ textless item.
Proof.
  intros Hq Hin (Hn & Hd & Hc). rewrite (filterItems_not_blank _ _ Hq) in Hin.
  apply list_elem_of_In, filter_In in Hin as [_ Hm].
  unfold matchesTerm in Hm. rewrite !or_empty_fieldText, Hn, Hd, Hc in Hm.
  cbn [toLowerCase] in Hm. rewrite includes_empty_false in Hm; [done|].
  intros He. apply blank_normalised in He. congruence.
Qed.

End SearchProperties.

Section AggregatorProperties.

Lemma calculateStats_nonempty (items : list Item) :
  items <> [] ->
  calculateStats (ArgArray items) =
  {| totalItems := length items;
     averagePrice :=
       if (0 <? length (parseablePrices items))%nat
       then roundTo2 (div (fold_left add (parseablePrices items) (ofZ 0))
                          (ofNat (length (parseablePrices items))))
       else ofZ 0;
     minPrice := if (0 <? length (parseablePrices items))%nat
                 then Math_min (parseablePrices items) else ofZ 0;
     maxPrice := if (0 <? length (parseablePrices items))%nat
                 then Math_max (parseablePrices items) else ofZ 0;
     categories := fold_left countCategory items ∅ |}.
Proof. by destruct items. Qed.

Lemma parseablePrices_nonempty (items : list Item) :
  parseablePrices items <> [] ->
  items <> [] /\ (0 <? length (parseablePrices items))%nat = true.
Proof.
  intros Hne. split; [by intros ->|].
  destruct (parseablePrices items); [done|reflexivity].
Qed.

(** X5.  When no record is filed under a name that object literals inherit,
    [categories] holds, for every name, the number of records filed under it
    (a record without a category, or with an empty one, is filed under
    [uncategorized]), it has no entry for a name without records, and
    [totalItems] is the number of records. *)
Theorem calculateStats_counts_categories (items : list Item) :
  Forall (fun item => inheritedName (categoryKey item) = false) items ->
  totalItems (calculateStats (ArgArray items)) = length items /\
  (forall key,
     categories (calculateStats (ArgArray items)) !! key =
     match countKey key items with
     | O => None
     | S k => Some (PNumber (ofNat (S k)))
     end) /\
  (forall item, item ∈ items ->
     category item = None \/ category item = Some EmptyString ->
     categories (calculateStats (ArgArray items)) !! "uncategorized"%string =
     Some (PNumber (ofNat (countKey "uncategorized" items))) /\
     (0 < countKey "uncategorized" items)%nat).
Proof.
  intros Hall.
  assert (forall key,
     categories (calculateStats (ArgArray items)) !! key =
     match countKey key items with
     | O => None
     | S k => Some (PNumber (ofNat (S k)))
     end) as Hcounts.
  { destruct items as [|item items]; [intros key; apply lookup_empty|].
    rewrite calculateStats_nonempty by done. apply (categories_counts _ Hall). }
  split; [by destruct items|]. split; [exact Hcounts|].
  intros item Hin Hcat.
  assert (0 < countKey "uncategorized" items)%nat as Hpos.
  { unfold countKey. apply Nat.neq_0_lt_0. intros Hlen.
    apply length_zero_iff_nil in Hlen.
    assert (item ∈ filter (fun item => categoryKey item = "uncategorized"%string) items)
      as Hin'.
    { apply list_elem_of_filter. split; [|done].
      unfold categoryKey. by destruct Hcat as [-> | ->]. }
    rewrite Hlen in Hin'. by apply elem_of_nil in Hin'. }
  split; [|done]. rewrite Hcounts.
  by destruct (countKey "uncategorized" items); [lia|].
Qed.

(** X6.  When some price parses, [minPrice] and [maxPrice] are parsed prices
    of the list, no parsed price is below [minPrice] or above [maxPrice],
    and [minPrice] is not above [maxPrice]. *)
Theorem calculateStats_min_max (items : list Item) :
  parseablePrices items <> [] ->
  minPrice (calculateStats (ArgArray items)) ∈ parseablePrices items /\
  maxPrice (calculateStats (ArgArray items)) ∈ parseablePrices items /\
  Forall (fun p => le (minPrice (calculateStats (ArgArray items))) p /\
                   le p (maxPrice (calculateStats (ArgArray items))))
         (parseablePrices items) /\
  le (minPrice (calculateStats (ArgArray items)))
     (maxPrice (calculateStats (ArgArray items))).
Proof.
  intros Hne. destruct (parseablePrices_nonempty _ Hne) as [Hitems Hlen].
  rewrite calculateStats_nonempty by done. cbn [minPrice maxPrice]. rewrite Hlen.
  pose proof (parseablePrices_notNaN items) as Hnn.
  destruct (Math_min_least _ Hnn Hne) as [Hmin Hleast].
  destruct (Math_max_greatest _ Hnn Hne) as [Hmax Hgreatest].
  split; [done|]. split; [done|]. split.
  - apply Forall_forall. intros p Hp. split.
    + by apply (proj1 (Forall_forall _ _) Hleast).
    + by apply (proj1 (Forall_forall _ _) Hgreatest).
  - by apply (proj1 (Forall_forall _ _) Hleast).
Qed.

Lemma parseablePrices_none (items : list Item) :
  Forall (fun item => parseFloat (price item) = NaN) items ->
  parseablePrices items = [].
Proof.
  unfold parseablePrices. induction 1 as [|item items Hitem _ IH]; [done|].
  simpl. by rewrite Hitem.
Qed.

(** X7.  When no record has a price that parses, the three price figures
    are 0, and the records are still counted in [totalItems]. *)
Theorem calculateStats_no_price (items : list Item) :
  Forall (fun item => parseFloat (price item) = NaN) items ->
  averagePrice (calculateStats (ArgArray items)) = ofZ 0 /\
  minPrice (calculateStats (ArgArray items)) = ofZ 0 /\
  maxPrice (calculateStats (ArgArray items)) = ofZ 0 /\
  totalItems (calculateStats (ArgArray items)) = length items.
Proof.
  intros Hall. destruct items as [|item items]; [done|].
  rewrite calculateStats_nonempty by done.
  by rewrite (parseablePrices_none _ Hall).
Qed.

End AggregatorProperties.

Section PaginationProperties.

Import Handlers.

Lemma List_filter_sublist {A} (f : A -> bool) (l : list A) :
  List.filter f l `sublist_of` l.
Proof.
  induction l as [|x l IH]; simpl; [constructor|].
  destruct (f x); by constructor.
Qed.

Lemma slice_sublist {A} (l : list A) (a b : number) : slice l a b `sublist_of` l.
Proof.
  unfold slice. etrans; [apply sublist_take | apply sublist_drop].
Qed.

Lemma searched_sublist req snapshot : searched req snapshot `sublist_of` snapshot.
Proof.
  unfold searched. destruct (truthy _); [|done].
  rewrite filterItems_unfold. destruct (blank _); [done|apply List_filter_sublist].
Qed.

Lemma searched_Matches req snapshot query :
  q req = Some query -> blank query = false ->
  Forall (Matches query) (searched req snapshot).
Proof.
  intros Hq Hblank. unfold searched. rewrite Hq. simpl.
  assert (truthy query = true) as -> by by destruct query.
  rewrite (filterItems_not_blank _ _ Hblank).
  apply Forall_forall. intros item Hin.
  apply list_elem_of_In, filter_In in Hin as [_ Hm].
  by apply matchesTerm_Matches.
Qed.

(** X8.  Whatever the page and the limit are, valid or not, the items of
    the answer are records of the snapshot in their order, none twice that
    was there once, and not more than [totalItems]; with a query that is not
    blank every one of them matches it. *)
Theorem respond_items_from_snapshot (req : Query) (snapshot : list Item) :
  items (respond req snapshot) `sublist_of` searched req snapshot /\
  items (respond req snapshot) `sublist_of` snapshot /\
  (length (items (respond req snapshot)) <=
     totalItems (pagination (respond req snapshot)))%nat /\
  (forall query, q req = Some query -> blank query = false ->
     Forall (Matches query) (items (respond req snapshot))).
Proof.
  assert (items (respond req snapshot) `sublist_of` searched req snapshot) as Hsub
    by apply slice_sublist.
  split; [done|]. split; [etrans; [done|apply searched_sublist]|].
  split; [by apply sublist_length|].
  intros query Hq Hblank.
  pose proof (searched_Matches req snapshot query Hq Hblank) as Hall.
  rewrite Forall_forall in Hall. apply Forall_forall.
  intros item Hin. apply Hall. by eapply elem_of_sublist.
Qed.

Lemma slice_window {A} (l : list A) (s n : Z) :
  0 <= s -> 0 <= n ->
  slice l (ofZ s) (ofZ (s + n)) = firstn (Z.to_nat n) (skipn (Z.to_nat s) l).
Proof.
  intros Hs Hn. rewrite slice_ofZ by lia.
  destruct (Z.le_gt_cases (Z.of_nat (length l)) s) as [Hout|Hin].
  - rewrite !skipn_all2 by lia. by rewrite !firstn_nil.
  - rewrite (Z.min_l s) by lia.
    destruct (Z.le_gt_cases (s + n) (Z.of_nat (length l))) as [Hfit|Hcut].
    + f_equal. lia.
    + rewrite !firstn_all2; [done| |]; rewrite length_skipn; lia.
Qed.

Lemma firstn_add_window {A} (l : list A) (a b : nat) :
  firstn (a + b) l = firstn a l ++ firstn b (skipn a l).
Proof.
  revert l. induction a as [|a IH]; intros l; [done|].
  destruct l as [|x l]; simpl; [by rewrite firstn_nil|]. by rewrite IH.
Qed.

Lemma concat_windows {A} (l : list A) (n k : nat) :
  concat (List.map (fun p => firstn n (skipn ((p - 1) * n) l)) (seq 1 k)) =
  firstn (k * n) l.
Proof.
  induction k as [|k IH]; [done|].
  rewrite seq_S, List.map_app, concat_app, IH. simpl.
  rewrite app_nil_r, Nat.sub_0_r.
  replace (n + k * n)%nat with (k * n + n)%nat by lia.
  by rewrite firstn_add_window.
Qed.

Lemma respond_page_window (lim qq : option string) (snapshot : list Item)
    (pageSize : Z) (p : nat) :
  parseInt (default "10"%string lim) = ofZ pageSize -> 0 < pageSize ->
  (1 <= p)%nat ->
  items (respond (pageRequest lim qq p) snapshot) =
  firstn (Z.to_nat pageSize)
    (skipn ((p - 1) * Z.to_nat pageSize) (searched (pageRequest lim qq p) snapshot)).
Proof.
  intros Hlim Hsize Hp.
  rewrite (respond_positive _ _ (Z.of_nat p) pageSize);
    [|apply parseInt_printInteger|exact Hlim].
  cbn [items]. rewrite slice_window by nia. f_equal. f_equal. nia.
Qed.

(** X9.  With a limit that reads as a positive integer, the pages 1 to
    [totalPages] put end to end are the searched records: every record is
    on exactly one page, in order. *)
Theorem pages_partition (lim qq : option string) (snapshot : list Item)
    (pageSize : Z) :
  parseInt (default "10"%string lim) = ofZ pageSize -> 0 < pageSize ->
  let found := searched (pageRequest lim qq 1) snapshot in
  let pages := Z.to_nat (ceilDiv (Z.of_nat (length found)) pageSize) in
  totalPages (pagination (respond (pageRequest lim qq 1) snapshot)) =
    ofNat pages /\
  concat (List.map (fun p => items (respond (pageRequest lim qq p) snapshot))
                   (seq 1 pages)) = found.
Proof.
  intros Hlim Hsize found pages.
  pose proof (ceilDiv_spec (Z.of_nat (length found)) pageSize Hsize) as Hceil.
  split.
  - rewrite (respond_positive _ _ 1 pageSize);
      [|apply (parseInt_printInteger 1)|exact Hlim].
    cbn [pagination totalPages]. fold found. unfold ofNat at 1.
    rewrite div_ceil_ofZ by done. unfold ofNat, pages. f_equal. lia.
  - erewrite map_ext_in.
    + rewrite (concat_windows found (Z.to_nat pageSize) pages).
      apply firstn_all2. unfold pages. nia.
    + intros p Hp. apply in_seq in Hp.
      apply respond_page_window; [done|done|lia].
Qed.

Lemma parseInt_cases (s : string) : parseInt s = NaN \/ exists z, parseInt s = ofZ z.
Proof.
  unfold parseInt. destruct (scanSign _) as [negative s2].
  destruct (scanDigits s2) as [[|d ds] r]; eauto.
Qed.

Lemma slice_NaN {A} (l : list A) : slice l NaN NaN = [].
Proof. unfold slice. simpl. by rewrite Z.sub_diag. Qed.

(** X10.  When the page or the limit does not start with a number, the
    answer has no items, whatever the snapshot holds, while [totalItems]
    still counts the searched records; a limit that is not a number makes
    [totalPages] and [itemsPerPage] [NaN]. *)
Theorem respond_not_a_number (req : Query) (snapshot : list Item) :
  parseInt (default "1"%string (page req)) = NaN \/
  parseInt (default "10"%string (limit req)) = NaN ->
  items (respond req snapshot) = [] /\
  totalItems (pagination (respond req snapshot)) = length (searched req snapshot) /\
  (parseInt (default "10"%string (limit req)) = NaN ->
   totalPages (pagination (respond req snapshot)) = NaN /\
   itemsPerPage (pagination (respond req snapshot)) = NaN).
Proof.
  intros Hnan. split; [|split; [done|]].
  - unfold respond. cbn [items]. fold (searched req snapshot).
    assert (mul (sub (parseInt (default "1"%string (page req))) (ofZ 1))
                (parseInt (default "10"%string (limit req))) = NaN) as ->.
    { destruct Hnan as [-> | ->]; [done|].
      by destruct (sub _ _). }
    apply slice_NaN.
  - intros Hlim. unfold respond. cbn [pagination totalPages itemsPerPage].
    by rewrite Hlim.
Qed.

Lemma mul_zero (x : number) : x = NaN \/ (exists z, x = ofZ z) ->
  mul x (ofZ 0) = NaN \/ mul x (ofZ 0) = ofZ 0.
Proof.
  intros [-> | [z ->]]; [by left|right]. by rewrite mul_ofZ, Z.mul_0_r.
Qed.

(** X11.  A limit that reads as 0 is not refused: the answer has no items
    and reports [itemsPerPage] 0, and [totalPages] is not a finite number
    ([NaN] when there are no records, infinite otherwise). *)
Theorem respond_limit_zero (req : Query) (snapshot : list Item) :
  parseInt (default "10"%string (limit req)) = ofZ 0 ->
  items (respond req snapshot) = [] /\
  itemsPerPage (pagination (respond req snapshot)) = ofZ 0 /\
  (forall x, totalPages (pagination (respond req snapshot)) <> Fin x) /\
  (searched req snapshot = [] ->
   totalPages (pagination (respond req snapshot)) = NaN).
Proof.
  intros Hlim. unfold respond. cbn [items pagination itemsPerPage totalPages].
  fold (searched req snapshot). rewrite Hlim. split; [|split; [done|]].
  - assert (sub (parseInt (default "1"%string (page req))) (ofZ 1) = NaN \/
            exists z, sub (parseInt (default "1"%string (page req))) (ofZ 1) = ofZ z)
      as Hsub.
    { destruct (parseInt_cases (default "1"%string (page req))) as [-> | [z ->]];
        [by left|right]. rewrite sub_ofZ. eauto. }
    destruct (mul_zero _ Hsub) as [-> | ->]; [apply slice_NaN|].
    rewrite add_ofZ. rewrite (slice_window _ 0 0) by lia. done.
  - split; [|by intros ->]. intros x. by destruct (searched req snapshot).
Qed.

(** X12.  A page number that reads as 0 or as a negative integer is not
    refused either.  With a positive limit, page 0 has no items; a negative
    page is counted from the end of the searched records: its items are the
    window that starts [(1 - page) * limit] records before the end and stops
    [(- page) * limit] records before the end. *)
Theorem respond_nonpositive_page (req : Query) (snapshot : list Item)
    (pageNum pageSize : Z) :
  parseInt (default "1"%string (page req)) = ofZ pageNum ->
  parseInt (default "10"%string (limit req)) = ofZ pageSize ->
  pageNum <= 0 -> 0 < pageSize ->
  let found := searched req snapshot in
  let total := Z.of_nat (length found) in
  let first := Z.max (total - (1 - pageNum) * pageSize) 0 in
  let stop := Z.max (total - (- pageNum) * pageSize) 0 in
  currentPage (pagination (respond req snapshot)) = ofZ pageNum /\
  (pageNum = 0 -> items (respond req snapshot) = []) /\
  (pageNum < 0 ->
   items (respond req snapshot) =
     firstn (Z.to_nat (stop - first)) (skipn (Z.to_nat first) found)).
Proof.
  intros Hp Hl Hpage Hsize found total first stop.
  rewrite (respond_positive _ _ _ _ Hp Hl). cbn [items pagination currentPage].
  fold found. split; [done|].
  unfold slice. rewrite !ToIntegerOrInfinity_ofZ. unfold relativeIndex.
  fold total. split.
  - intros ->.
    destruct (Z.ltb_spec ((0 - 1) * pageSize) 0); [|lia].
    destruct (Z.ltb_spec ((0 - 1) * pageSize + pageSize) 0); [lia|].
    replace (Z.to_nat (Z.max _ 0)) with 0%nat by lia. done.
  - intros Hneg.
    destruct (Z.ltb_spec ((pageNum - 1) * pageSize) 0); [|nia].
    destruct (Z.ltb_spec ((pageNum - 1) * pageSize + pageSize) 0); [|nia].
    subst first stop. f_equal; [|f_equal]; lia.
Qed.

(** X13.  A query made of white space only is the same as no query: the
    answer is the one for the request without [q]. *)
Theorem respond_blank_query (req : Query) (snapshot : list Item) (query : string) :
  q req = Some query -> blank query = true ->
  respond req snapshot =
  respond {| page := page req; limit := limit req; q := None |} snapshot.
Proof.
  intros Hq Hblank.
  assert (searched req snapshot = snapshot) as Hsame.
  { unfold searched. rewrite Hq. simpl. destruct (truthy query); [|done].
    by rewrite filterItems_unfold, Hblank. }
  unfold respond. cbn [page limit q]. fold (searched req snapshot).
  by rewrite Hsame.
Qed.

End PaginationProperties.

Section MorePagination.

Import Handlers.

Lemma Qceiling_div_neg n d : d < 0 -> Qceiling (inject_Z n / inject_Z d) = - (n / - d).
Proof.
  intros Hd. unfold Qceiling. f_equal.
  rewrite Zdiv_Qdiv. apply Qfloor_comp.
  rewrite inject_Z_opp. field.
  intros H. apply (inject_Z_injective d 0) in H. lia.
Qed.

Lemma div_ceil_ofZ_neg n d :
  d < 0 -> Math_ceil (div (ofZ n) (ofZ d)) = ofZ (- (n / - d)).
Proof.
  intros Hd. unfold div, ofZ. rewrite Qsign_inject_Z.
  destruct (Z.compare_spec d 0); try lia.
  simpl. unfold ofZ. do 2 f_equal.
  rewrite <- Qceiling_div_neg by done. apply Qceiling_comp, Qred_correct.
Qed.

(** X14.  A limit that reads as a negative integer is not refused.  Page 1
    then holds all the searched records but the last [- limit] of them,
    every later page is empty, and [totalPages] is 0 or negative. *)
Theorem respond_negative_limit (req : Query) (snapshot : list Item)
    (pageNum pageSize : Z) :
  parseInt (default "1"%string (page req)) = ofZ pageNum ->
  parseInt (default "10"%string (limit req)) = ofZ pageSize ->
  0 < pageNum -> pageSize < 0 ->
  let found := searched req snapshot in
  (pageNum = 1 ->
   items (respond req snapshot) =
     firstn (length found - Z.to_nat (- pageSize)) found) /\
  (1 < pageNum -> items (respond req snapshot) = []) /\
  totalPages (pagination (respond req snapshot)) =
    ofZ (- (Z.of_nat (length found) / - pageSize)) /\
  - (Z.of_nat (length found) / - pageSize) <= 0.
Proof.
  intros Hp Hl Hpage Hsize found.
  rewrite (respond_positive _ _ _ _ Hp Hl). cbn [items pagination totalPages].
  fold found. unfold slice. rewrite !ToIntegerOrInfinity_ofZ. unfold relativeIndex.
  split; [|split; [|split]].
  - intros ->.
    destruct (Z.ltb_spec ((1 - 1) * pageSize) 0); [lia|].
    destruct (Z.ltb_spec ((1 - 1) * pageSize + pageSize) 0); [|lia].
    replace (Z.to_nat (Z.min ((1 - 1) * pageSize) (Z.of_nat (length found))))
      with 0%nat by lia.
    cbn [skipn]. f_equal. lia.
  - intros Hlater.
    destruct (Z.ltb_spec ((pageNum - 1) * pageSize) 0); [|nia].
    destruct (Z.ltb_spec ((pageNum - 1) * pageSize + pageSize) 0); [|nia].
    replace (Z.to_nat (Z.max _ 0)) with 0%nat by nia. done.
  - unfold ofNat at 1. by apply div_ceil_ofZ_neg.
  - pose proof (Z.div_pos (Z.of_nat (length found)) (- pageSize)). lia.
Qed.

Lemma parseInt_trailing (z : Z) (rest : string) :
  noDigitAhead rest -> parseInt (printInteger z +:+ rest) = ofZ z.
Proof.
  intros Hrest. unfold printInteger.
  destruct (decimalDigits_spec (Z.abs_N z)) as (Hv & Hall & Hne).
  destruct (decimalDigits (Z.abs_N z)) as [|d ds] eqn:Hds; [done|].
  pose proof (scanDigits_stringOfDigits (d :: ds) rest Hall Hrest) as Hscan.
  inversion Hall as [|? ? Hd Hall']; subst.
  unfold parseInt. destruct (Z.ltb_spec z 0) as [Hz|Hz].
  - change (("-" +:+ stringOfDigits (d :: ds)) +:+ rest)
      with (String "-" (stringOfDigits (d :: ds) +:+ rest)).
    change (trimStart (String "-" (stringOfDigits (d :: ds) +:+ rest)))
      with (String "-" (stringOfDigits (d :: ds) +:+ rest)).
    change (scanSign (String "-" (stringOfDigits (d :: ds) +:+ rest)))
      with (true, stringOfDigits (d :: ds) +:+ rest).
    cbv iota beta. rewrite Hscan, Hv. simpl. f_equal. lia.
  - change ((EmptyString +:+ stringOfDigits (d :: ds)) +:+ rest)
      with (String (digitChar d) (stringOfDigits ds +:+ rest)) in *.
    change (stringOfDigits (d :: ds) +:+ rest)
      with (String (digitChar d) (stringOfDigits ds +:+ rest)) in Hscan.
    cbn [trimStart].
    rewrite isWhiteSpace_digitChar, scanSign_digit by done.
    cbv iota beta. rewrite Hscan, Hv. simpl. f_equal. lia.
Qed.

(** X15.  Only the leading integer of [page] and [limit] is used: text that
    follows the digits is ignored, so [page=2abc] is answered as [page=2]. *)
Theorem respond_trailing_text (req : Query) (snapshot : list Item)
    (pageNum pageSize : Z) (rest1 rest2 : string) :
  noDigitAhead rest1 -> noDigitAhead rest2 ->
  page req = Some (printInteger pageNum +:+ rest1) ->
  limit req = Some (printInteger pageSize +:+ rest2) ->
  respond req snapshot =
  respond {| page := Some (printInteger pageNum);
             limit := Some (printInteger pageSize); q := q req |} snapshot.
Proof.
  intros Hrest1 Hrest2 Hp Hl.
  rewrite (respond_positive snapshot req pageNum pageSize);
    [|rewrite Hp; by apply parseInt_trailing|rewrite Hl; by apply parseInt_trailing].
  rewrite (respond_positive snapshot _ pageNum pageSize);
    [done|apply parseInt_printInteger|apply parseInt_printInteger].
Qed.

End MorePagination.

Section Lookup.

Import Handlers.

Lemma parseInt_noRadix_decimal (s : string) :
  (forall x r, snd (scanSign (trimStart s)) = String "0" (String x r) ->
     (N_of_ascii x =? 120)%N || (N_of_ascii x =? 88)%N = false) ->
  parseInt_noRadix s = parseInt s.
Proof.
  unfold parseInt_noRadix, parseInt.
  destruct (scanSign (trimStart s)) as [negative s2]. cbn [snd]. intros Hx.
  destruct s2 as [|c [|x r]]; [done| |].
  - destruct c as [[] [] [] [] [] [] [] []]; reflexivity.
  - destruct c as [[] [] [] [] [] [] [] []]; try reflexivity.
    by rewrite (Hx x r eq_refl).
Qed.

Lemma scanSign_printInteger z :
  exists d ds, Forall isDigit (d :: ds) /\
    snd (scanSign (trimStart (printInteger z))) = stringOfDigits (d :: ds).
Proof.
  unfold printInteger.
  destruct (decimalDigits_spec (Z.abs_N z)) as (Hv & Hall & Hne).
  destruct (decimalDigits (Z.abs_N z)) as [|d ds] eqn:Hds; [done|].
  exists d, ds. split; [done|].
  inversion Hall as [|? ? Hd Hall']; subst.
  destruct (Z.ltb_spec z 0) as [Hz|Hz].
  - reflexivity.
  - change (EmptyString +:+ stringOfDigits (d :: ds)) with (stringOfDigits (d :: ds)).
    cbn [stringOfDigits trimStart].
    by rewrite isWhiteSpace_digitChar, scanSign_digit by done.
Qed.

Lemma parseInt_noRadix_printInteger z : parseInt_noRadix (printInteger z) = ofZ z.
Proof.
  rewrite parseInt_noRadix_decimal; [apply parseInt_printInteger|].
  intros x r. destruct (scanSign_printInteger z) as (d & ds & Hall & ->).
  destruct ds as [|d2 ds]; [done|]. cbn [stringOfDigits]. intros [= _ <- _].
  inversion Hall as [|? ? _ Hall']; subst.
  inversion Hall' as [|? ? Hd2 _]; subst.
  rewrite (N_of_digitChar d2 Hd2). unfold isDigit in Hd2.
  apply orb_false_iff. split; apply N.eqb_neq; lia.
Qed.

Lemma ofZ_inj (a b : Z) : ofZ a = ofZ b -> a = b.
Proof. by intros [= ?]. Qed.

Lemma find_first {A} (f : A -> bool) (l : list A) :
  match List.find f l with
  | Some x => exists before after,
      l = before ++ x :: after /\ f x = true /\ Forall (fun y => f y = false) before
  | None => Forall (fun y => f y = false) l
  end.
Proof.
  induction l as [|a l IH]; simpl; [done|].
  destruct (f a) eqn:Hfa.
  - by exists [], l.
  - destruct (List.find f l) as [x|].
    + destruct IH as (before & after & -> & Hx & Hbefore).
      exists (a :: before), after. split; [done|]. split; [done|]. by constructor.
    + by constructor.
Qed.

Lemma complete_getItemHandler (idParam : string) (w : World) :
  complete (getItemHandler idParam) w =
  match complete ItemsRoute.getItems w with
  | (w', Ok snapshot) =>
      (w', Ok match List.find (fun i => bool_decide (ofZ (id i) = parseInt_noRadix idParam))
                              snapshot with
              | Some item => Found item
              | None => NotFound
              end)
  | (w', Err e) => (w', Err e)
  end.
Proof.
  unfold getItemHandler.
  assert (forall (f : list Item -> Async ItemReply),
    complete (ItemsRoute.getItems ≫= f) w =
    match complete ItemsRoute.getItems w with
    | (w', Ok a) => complete (f a) w'
    | (w', Err e) => (w', Err e)
    end) as Hbind by (intros f; apply complete_bind).
  rewrite Hbind. destruct (complete ItemsRoute.getItems w) as [w' [snapshot|e]]; [|done].
  by destruct (List.find _ snapshot).
Qed.

(** X16.  [GET /items/:id] with the decimal text of a safe integer answers
    with the first record of the snapshot that has this [id], and with
    [Item not found] exactly when no record has it. *)
Theorem getItemHandler_first_with_id (z : Z) (w w' : World) (snapshot : list Item) :
  safeInteger z ->
  complete ItemsRoute.getItems w = (w', Ok snapshot) ->
  exists reply,
    complete (getItemHandler (printInteger z)) w = (w', Ok reply) /\
    match reply with
    | Found item =>
        exists before after,
          snapshot = before ++ item :: after /\ id item = z /\
          Forall (fun i => id i <> z) before
    | NotFound => Forall (fun i => id i <> z) snapshot
    end.
Proof.
  intros _ Hload. rewrite complete_getItemHandler, Hload, parseInt_noRadix_printInteger.
  pose proof (find_first (fun i => bool_decide (ofZ (id i) = ofZ z)) snapshot) as Hfind.
  cbv beta in Hfind.
  assert (forall l, Forall (fun y => bool_decide (ofZ (id y) = ofZ z) = false) l ->
                    Forall (fun i => id i <> z) l) as Hno.
  { intros l Hl. eapply Forall_impl; [exact Hl|].
    intros i Hi%bool_decide_eq_false Heq. apply Hi. by rewrite Heq. }
  destruct (List.find _ snapshot) as [item|]; eexists; (split; [reflexivity|]).
  - destruct Hfind as (before & after & -> & Hitem%bool_decide_eq_true & Hbefore).
    exists before, after. split; [done|]. split; [by apply ofZ_inj|by apply Hno].
  - by apply Hno.
Qed.

(** X17.  An [id] that does not start with a number finds nothing, whatever
    the snapshot holds: the answer is [Item not found]; and when [getItems]
    throws, the handler passes the same error on. *)
Theorem getItemHandler_not_a_number (idParam : string) (w : World) :
  parseInt_noRadix idParam = NaN ->
  complete (getItemHandler idParam) w =
  match complete ItemsRoute.getItems w with
  | (w', Ok _) => (w', Ok NotFound)
  | (w', Err e) => (w', Err e)
  end.
Proof.
  intros Hnan. rewrite complete_getItemHandler, Hnan.
  destruct (complete ItemsRoute.getItems w) as [w' [snapshot|e]]; [|done].
  assert (List.find (fun i => bool_decide (ofZ (id i) = NaN)) snapshot = None) as ->; [|done].
  induction snapshot as [|i l IH]; [done|]. cbn [List.find].
  by rewrite bool_decide_eq_false_2.
Qed.

End Lookup.

Section CompleteFacts.

Lemma complete_mbind {A B : Type} (p : Async A) (f : A -> Async B) w :
  complete (p ≫= f) w =
  match complete p w with
  | (w', Ok a) => complete (f a) w'
  | (w', Err e) => (w', Err e)
  end.
Proof. apply complete_bind. Qed.

Lemma complete_fmap {A B : Type} (f : A -> B) (p : Async A) w :
  complete (f <$> p) w =
  match complete p w with
  | (w', Ok a) => (w', Ok (f a))
  | (w', Err e) => (w', Err e)
  end.
Proof. unfold fmap, Async_fmap. by rewrite complete_bind. Qed.

End CompleteFacts.

Section ItemCacheTiming.

Import ItemsRoute Server.

(** X18.  [getItems] dates the entry at the start of the call, not at the
    end of the read.  When the read of a call that found the entry invalid
    takes [dt] and succeeds, the entry holds what was read, dated at the
    time of the call: it is valid for what is left of the 30 seconds, and
    not at all when the read took that long. *)
Theorem getItems_entry_dated_at_call (w : World) (dt : Z) (loaded : list Item) :
  cacheValid (items_js w) (clock (host w)) = false ->
  let s := exec itemsServer {| world := w; calls := [] |}
             [Invoke tt; Advance dt; Settle 0 (ReadResolved (ItemsJSON loaded))] in
  calls s = [Settled (Ok loaded)] /\
  itemsCache (items_js (world s)) = Some loaded /\
  itemsCacheTimestamp (items_js (world s)) = clock (host w) /\
  clock (host (world s)) = clock (host w) + dt /\
  cacheValid (items_js (world s)) (clock (host (world s))) = (dt <? CACHE_TTL).
Proof.
  intros Hstale. cbn zeta. cbn [exec fold_left step world calls].
  destruct (getItems_starts_read (clock (host w)) w) as (k & -> & Hk); [done|].
  cbn [exec fold_left step world calls List.app].
  change ([Suspended k] !! 0%nat) with (Some (Suspended k)). cbv iota.
  rewrite Hk. cbn [settleItems world calls].
  split; [done|]. split; [done|]. split; [done|]. split; [done|].
  unfold cacheValid. simpl. f_equal. lia.
Qed.

End ItemCacheTiming.

Section StatsCache.

Import StatsService Server.

(** X19.  While the cached statistics are valid, [getCachedStats] answers
    with them and does nothing else: [getItemsFn] is not called, whatever
    it is, no read is started, the timer is not re-armed, and the world is
    as before; [GET /stats] answers so even when the data file has become
    unreadable and the item cache has expired. *)
Theorem getCachedStats_valid_untouched (w : World) (getItemsFn : Async StatsArg) :
  cacheValid (stats_js w) (clock (host w)) = true ->
  exists cached,
    statsCache (stats_js w) = Some cached /\
    run (getCachedStats getItemsFn) w = (w, Settled (Ok cached)) /\
    complete (getCachedStats getItemsFn) w = (w, Ok cached) /\
    run (app GetStats) w = (w, Settled (Ok (StatsBody cached))).
Proof.
  intros Hvalid.
  destruct (getCachedStats_valid getItemsFn w Hvalid) as (cached & Hc & Hrun & Hcomplete).
  exists cached. split; [done|]. split; [done|]. split; [done|].
  cbn [app]. unfold Handlers.getStatsHandler. rewrite run_fmap.
  destruct (getCachedStats_valid (ArgArray <$> ItemsRoute.getItems) w Hvalid)
    as (cached' & Hc' & -> & _).
  congruence.
Qed.

Lemma complete_recompute_error (getItemsFn : Async StatsArg) (now : Z) w w' e :
  complete getItemsFn w = (w', Err e) ->
  complete (recompute getItemsFn now) w = (w', Err e).
Proof. intros Hf. unfold recompute. by rewrite complete_mbind, Hf. Qed.

(** X20.  When [getItemsFn] throws, [getCachedStats] throws the same error
    and does nothing after it: the world is as [getItemsFn] left it, so
    nothing is cached, no timer is armed and no watcher is opened by the
    call. *)
Theorem getCachedStats_error_passes (w w' : World) (getItemsFn : Async StatsArg)
    (e : Error) :
  cacheValid (stats_js w) (clock (host w)) = false ->
  complete getItemsFn w = (w', Err e) ->
  complete (getCachedStats getItemsFn) w = (w', Err e).
Proof.
  intros Hinvalid Hf.
  destruct (getCachedStats_invalid getItemsFn w Hinvalid) as [_ ->].
  by apply complete_recompute_error.
Qed.

(** X21.  When the item cache is invalid and the data file cannot be loaded,
    every route that has to load answers with the error
    [Failed to read items data] and leaves both caches, the timers and the
    watchers as they were; one read was started. *)
Theorem load_failure_every_route (w : World) (req : Request) :
  ItemsRoute.cacheValid (items_js w) (clock (host w)) = false ->
  reloadFails w ->
  (req = GetStats -> cacheValid (stats_js w) (clock (host w)) = false) ->
  exists w',
    complete (app req) w = (w', Err (mkError "Failed to read items data")) /\
    items_js w' = items_js w /\ stats_js w' = stats_js w /\
    timers (host w') = timers (host w) /\
    watchers (host w') = watchers (host w) /\
    reads (host w') = S (reads (host w)).
Proof.
  intros Hstale Hfails Hstats.
  assert (exists w',
    complete ItemsRoute.getItems w = (w', Err (mkError "Failed to read items data")) /\
    items_js w' = items_js w /\ stats_js w' = stats_js w /\
    timers (host w') = timers (host w) /\
    watchers (host w') = watchers (host w) /\
    reads (host w') = S (reads (host w))) as (w' & Hload & Hsame).
  { rewrite (complete_getItems_miss w Hstale). unfold loadOutcome.
    destruct (dataFile (host w)) as [msg|[|loaded]] eqn:Hfile.
    - eexists. split; [reflexivity|]. done.
    - eexists. split; [reflexivity|]. done.
    - by destruct (Hfails loaded). }
  exists w'. split; [|done].
  destruct req as [query|idParam|]; cbn [app].
  - rewrite complete_fmap. unfold Handlers.getItemsHandler.
    by rewrite complete_mbind, Hload.
  - by rewrite complete_fmap, complete_getItemHandler, Hload.
  - rewrite complete_fmap. unfold Handlers.getStatsHandler.
    destruct (getCachedStats_invalid (ArgArray <$> ItemsRoute.getItems) w
                (Hstats eq_refl)) as [_ ->].
    rewrite (complete_recompute_error _ _ w w' (mkError "Failed to read items data"));
      [done|].
    by rewrite complete_fmap, Hload.
Qed.

End StatsCache.

Section WatcherInvariant.

Import StatsService Server.

Lemma WatcherTracked_frame w w' :
  stats_js w' = stats_js w ->
  watchers (host w') = watchers (host w) ->
  WatcherTracked w -> WatcherTracked w'.
Proof. unfold WatcherTracked. by intros -> ->. Qed.

Lemma reload_watched now : Keeps WatcherTracked (ItemsRoute.reload now).
Proof.
  intros w Hw. unfold ItemsRoute.reload. apply wp_tryCatch.
  unfold mbind, Async_bind, readFile. simpl.
  split; [by eapply WatcherTracked_frame, Hw|].
  intros [msg|[|items]] w' Hw'; simpl; by eapply WatcherTracked_frame, Hw'.
Qed.

Lemma getItems_watched : Keeps WatcherTracked ItemsRoute.getItems.
Proof.
  intros w Hw. unfold ItemsRoute.getItems, mbind, Async_bind. simpl.
  destruct (itemsCache (items_js w)); [|by apply reload_watched].
  destruct (_ <? _); [done|by apply reload_watched].
Qed.

(** The statements of [getCachedStats] that follow [await getItemsFn()]. *)
Lemma install_watched (arg : StatsArg) (now : Z) :
  Keeps WatcherTracked (recompute (Ret arg) now).
Proof.
  intros w Hopen. unfold WatcherTracked in *.
  unfold recompute, mbind, Async_bind, initFileWatcher, mbind, Async_bind. simpl.
  destruct (watcher (stats_js w)) as [wh|] eqn:Hwt; simpl; rewrite ?Hwt; simpl;
    destruct (cacheTimeout (stats_js w)) as [t|] eqn:Ht; simpl;
    rewrite ?Hwt, ?Hopen; try done;
    apply (right_id_L ∅ (∪)).
Qed.

Lemma recompute_watched (getItemsFn : Async StatsArg) (now : Z) :
  Keeps WatcherTracked getItemsFn -> Keeps WatcherTracked (recompute getItemsFn now).
Proof.
  intros Hf w Hw. unfold recompute, mbind at 1, Async_bind at 1.
  apply wp_bind. eapply wp_mono, Hf, Hw. intros [arg|e] w' Hw'; [|done].
  apply (install_watched arg now w' Hw').
Qed.

Lemma getCachedStats_watched (getItemsFn : Async StatsArg) :
  Keeps WatcherTracked getItemsFn -> Keeps WatcherTracked (getCachedStats getItemsFn).
Proof.
  intros Hf w Hw. unfold getCachedStats, mbind, Async_bind. simpl.
  destruct (statsCache (stats_js w)); [|by apply recompute_watched].
  destruct (_ <? _); [done|by apply recompute_watched].
Qed.

Lemma fmap_watched {A B} (f : A -> B) (p : Async A) :
  Keeps WatcherTracked p -> Keeps WatcherTracked (f <$> p).
Proof.
  intros Hp w Hw. unfold fmap, Async_fmap. apply wp_bind.
  eapply wp_mono, Hp, Hw. by intros [a|e] w' Hw'.
Qed.

Lemma app_watched req : Keeps WatcherTracked (app req).
Proof.
  destruct req as [query|idParam|]; simpl.
  - apply fmap_watched. intros w Hw.
    unfold Handlers.getItemsHandler, mbind, Async_bind. apply wp_bind.
    eapply wp_mono, getItems_watched, Hw. by intros [a|e] w' Hw'.
  - apply fmap_watched. intros w Hw.
    unfold Handlers.getItemHandler, mbind, Async_bind. apply wp_bind.
    eapply wp_mono, getItems_watched, Hw. intros [a|e] w' Hw'; [|done].
    by destruct (List.find _ a).
  - apply fmap_watched, getCachedStats_watched, fmap_watched, getItems_watched.
Qed.

Lemma fireTimer_watched h w : WatcherTracked w -> WatcherTracked (fireTimer h w).
Proof.
  intros Hopen. unfold fireTimer.
  destruct (timers (host w) !! h) as [due|]; [|done].
  by destruct (due <=? clock (host w)).
Qed.

(** The listener of the watcher: what it changes and what it leaves. *)
Lemma onWatchEvent_change w :
  let w' := fst (complete (onWatchEvent "change") w) in
  statsCache (stats_js w') = None /\
  statsCacheTimestamp (stats_js w') = 0 /\
  cacheTimeout (stats_js w') = None /\
  watcher (stats_js w') = watcher (stats_js w) /\
  items_js w' = items_js w /\
  watchers (host w') = watchers (host w) /\
  clock (host w') = clock (host w) /\
  reads (host w') = reads (host w) /\
  dataFile (host w') = dataFile (host w) /\
  timers (host w') =
    match cacheTimeout (stats_js w) with
    | Some h => delete h (timers (host w))
    | None => timers (host w)
    end.
Proof.
  unfold onWatchEvent. destruct (decide _) as [_|Hne]; [|done].
  unfold invalidateCache, mbind, Async_bind. simpl.
  by destruct (cacheTimeout (stats_js w)) eqn:Ht.
Qed.

Lemma notifyWatchers_facts w :
  let w' := notifyWatchers "change" w in
  watcher (stats_js w') = watcher (stats_js w) /\
  items_js w' = items_js w /\
  watchers (host w') = watchers (host w) /\
  clock (host w') = clock (host w) /\
  reads (host w') = reads (host w) /\
  dataFile (host w') = dataFile (host w) /\
  (watchers (host w) <> ∅ ->
   statsCache (stats_js w') = None /\ statsCacheTimestamp (stats_js w') = 0 /\
   cacheTimeout (stats_js w') = None) /\
  (watchers (host w) = ∅ -> w' = w).
Proof.
  cbn zeta. unfold notifyWatchers.
  destruct (elements (watchers (host w))) as [|h hs] eqn:Helems.
  { simpl. repeat (split; [done|]). split; [|done].
    intros Hne. destruct Hne. by apply leibniz_equiv, elements_empty_inv. }
  assert (watchers (host w) <> ∅) as Hne.
  { intros Hempty. rewrite Hempty, elements_empty in Helems. done. }
  clear Helems.
  assert (forall l : list nat,
    let w' := foldr (fun _ w' => fst (complete (onWatchEvent "change") w')) w l in
    watcher (stats_js w') = watcher (stats_js w) /\
    items_js w' = items_js w /\
    watchers (host w') = watchers (host w) /\
    clock (host w') = clock (host w) /\
    reads (host w') = reads (host w) /\
    dataFile (host w') = dataFile (host w)) as Hkeep.
  { induction l as [|x l IH]; [done|]. cbn zeta. cbn [foldr].
    destruct IH as (H1 & H2 & H3 & H4 & H5 & H6).
    destruct (onWatchEvent_change (foldr (fun (_ : nat) w' =>
                fst (complete (onWatchEvent "change") w')) w l))
      as (_ & _ & _ & G1 & G2 & G3 & G4 & G5 & G6 & _).
    rewrite G1, G2, G3, G4, G5, G6. done. }
  destruct (Hkeep (h :: hs)) as (H1 & H2 & H3 & H4 & H5 & H6).
  split; [done|]. split; [done|]. split; [done|]. split; [done|].
  split; [done|]. split; [done|]. split; [|done].
  intros _. cbn [foldr].
  destruct (onWatchEvent_change (foldr (fun (_ : nat) w' =>
              fst (complete (onWatchEvent "change") w')) w hs))
    as (G1 & G2 & G3 & _). done.
Qed.

Lemma notifyWatchers_watched w :
  WatcherTracked w -> WatcherTracked (notifyWatchers "change" w).
Proof.
  intros Hopen.
  destruct (notifyWatchers_facts w) as (H1 & _ & H3 & _).
  cbn zeta in *. unfold WatcherTracked. by rewrite H1, H3.
Qed.

(** The watcher invariant holds in every world the server reaches. *)
Lemma reachable_WatcherTracked w : reachable w -> WatcherTracked w.
Proof.
  intros (file & now & evs & ->).
  apply (exec_safe app WatcherTracked).
  - apply app_watched.
  - intros dt w Hw. by eapply WatcherTracked_frame, Hw.
  - apply fireTimer_watched.
  - intros r w Hw. apply notifyWatchers_watched.
    by eapply WatcherTracked_frame, Hw.
  - split; [done|constructor].
Qed.

Lemma TimersTracked_size w : TimersTracked w -> (size (timers (host w)) <= 1)%nat.
Proof.
  intros Hw. destruct (cacheTimeout (stats_js w)) as [h|] eqn:Ht.
  - assert (timers (host w) =
            match timers (host w) !! h with
            | Some due => {[ h := due ]}
            | None => ∅
            end) as ->.
    { apply map_eq. intros h'. destruct (decide (h' = h)) as [->|Hne].
      - destruct (timers (host w) !! h) as [due|] eqn:Hh; [|done].
        by rewrite lookup_singleton_eq.
      - assert (timers (host w) !! h' = None) as ->.
        { destruct (timers (host w) !! h') eqn:Hh'; [|done].
          specialize (Hw h' (mk_is_Some _ _ Hh')). congruence. }
        destruct (timers (host w) !! h); [by rewrite lookup_singleton_ne|done]. }
    destruct (timers (host w) !! h);
      [by rewrite map_size_singleton|rewrite map_size_empty; lia].
  - assert (timers (host w) = ∅) as ->; [|rewrite map_size_empty; lia].
    apply map_empty. intros h. destruct (timers (host w) !! h) eqn:Hh; [|done].
    specialize (Hw h (mk_is_Some _ _ Hh)). congruence.
Qed.

(** X22.  In every world the server reaches there is at most one open
    watcher and at most one pending timer: the watcher [watcher] refers to
    and the timer [cacheTimeout] refers to.  Watchers and timers do not pile
    up, however many requests were answered. *)
Theorem reachable_one_watcher_one_timer (w : World) :
  reachable w ->
  (size (watchers (host w)) <= 1)%nat /\
  (size (timers (host w)) <= 1)%nat /\
  (forall h, h ∈ watchers (host w) <-> watcher (stats_js w) = Some h) /\
  (forall h, is_Some (timers (host w) !! h) -> cacheTimeout (stats_js w) = Some h).
Proof.
  intros Hw. pose proof (reachable_TimersTracked w Hw) as Htimers.
  pose proof (reachable_WatcherTracked w Hw) as Hopen. unfold WatcherTracked in Hopen.
  split; [|split; [by apply TimersTracked_size|split; [|exact Htimers]]].
  - rewrite Hopen.
    destruct (watcher (stats_js w)); [by rewrite size_singleton|rewrite size_empty; lia].
  - intros h. rewrite Hopen. destruct (watcher (stats_js w)) as [h'|].
    + rewrite elem_of_singleton. split; [by intros ->|by intros [= ->]].
    + split; [by intros ?%elem_of_empty|done].
Qed.

End WatcherInvariant.

Section StatsTiming.

Import StatsService Server.

(** X23.  The watcher clears the statistics but not the item cache.  In a
    world the server has reached, with a watcher open and a valid item
    cache, a change of the data file leaves the statistics cleared and no
    timer pending; the next [GET /stats] recomputes them from the snapshot
    cached before the change, without reading the file, whatever the file
    now holds. *)
Theorem stats_after_file_change (w : World) (r : FileRead) (snapshot : list Item) :
  reachable w ->
  watchers (host w) <> ∅ ->
  itemsCache (items_js w) = Some snapshot ->
  clock (host w) - itemsCacheTimestamp (items_js w) < ItemsRoute.CACHE_TTL ->
  let w1 := world (step app {| world := w; calls := [] |} (FileChanged r)) in
  statsCache (stats_js w1) = None /\
  timers (host w1) = ∅ /\
  items_js w1 = items_js w /\
  dataFile (host w1) = r /\
  exists w2,
    run (app GetStats) w1 =
      (w2, Settled (Ok (StatsBody (calculateStats (ArgArray snapshot))))) /\
    reads (host w2) = reads (host w).
Proof.
  intros Hreach Hwatched Hsnapshot Hfresh. cbn zeta. cbn [step world].
  set (w0 := with_host (writeFile r) w).
  assert (watchers (host w0) <> ∅) as Hne by done.
  assert (TimersTracked (notifyWatchers "change" w0)) as Htimers.
  { apply notifyWatchers_TimersTracked.
    eapply TimersTracked_frame, reachable_TimersTracked, Hreach; done. }
  destruct (notifyWatchers_facts w0) as (_ & Hitems & _ & Hclock & Hreads & Hfile & Hdrop & _).
  cbn zeta in *. destruct (Hdrop Hne) as (Hnone & _ & Htimeout).
  set (w1 := notifyWatchers "change" w0) in *.
  split; [done|]. split.
  { pose proof (TimersTracked_cleared w1 Htimers) as Hclear.
    by rewrite Htimeout in Hclear. }
  split; [done|]. split; [done|].
  cbn [app]. unfold Handlers.getStatsHandler. rewrite run_fmap.
  assert (cacheValid (stats_js w1) (clock (host w1)) = false) as Hinvalid
    by (unfold cacheValid; by rewrite Hnone).
  destruct (getCachedStats_invalid (ArgArray <$> ItemsRoute.getItems) w1 Hinvalid)
    as [-> _].
  rewrite run_recompute, run_fmap.
  rewrite (run_getItems_hit w1 snapshot)
    by (rewrite ?Hitems, ?Hclock; done).
  destruct (run_install (ArgArray snapshot) (clock (host w1)) w1)
    as (w2 & -> & _ & _ & _ & _ & Hreads2 & _).
  exists w2. split; [done|]. by rewrite Hreads2, Hreads.
Qed.

(** X24.  [getCachedStats] dates the statistics at the start of the call and
    arms the timer at its end.  When a request for the statistics finds both
    caches invalid and its read takes [dt] and succeeds, and [fs.watch]
    succeeds where the watcher is opened, the statistics of
    what was read are cached, dated at the time of the call, as is the
    snapshot; one timer is pending, due 60 seconds after the end of the
    read; by their date the statistics are valid for what is left of the 60
    seconds. *)
Theorem getStats_dated_at_call (w : World) (dt : Z) (loaded : list Item) :
  reachable w ->
  bothStale w ->
  let s := exec app {| world := w; calls := [] |}
             [Invoke GetStats; Advance dt; Settle 0 (ReadResolved (ItemsJSON loaded))] in
  calls s = [Settled (Ok (StatsBody (calculateStats (ArgArray loaded))))] /\
  statsCache (stats_js (world s)) = Some (calculateStats (ArgArray loaded)) /\
  statsCacheTimestamp (stats_js (world s)) = clock (host w) /\
  itemsCache (items_js (world s)) = Some loaded /\
  itemsCacheTimestamp (items_js (world s)) = clock (host w) /\
  (exists h, cacheTimeout (stats_js (world s)) = Some h /\
     timers (host (world s)) = {[ h := clock (host w) + dt + CACHE_TTL ]}) /\
  cacheValid (stats_js (world s)) (clock (host (world s))) = (dt <? CACHE_TTL).
Proof.
  intros Hreach [Hitems Hstats]. cbn zeta. cbn [exec fold_left step world calls].
  pose proof (reachable_TimersTracked w Hreach) as Htimers.
  cbn [app]. unfold Handlers.getStatsHandler. rewrite run_fmap.
  destruct (getCachedStats_invalid (ArgArray <$> ItemsRoute.getItems) w Hstats)
    as [-> _].
  rewrite run_recompute, run_fmap, (run_getItems_miss w Hitems).
  destruct (run_reload (clock (host w)) w) as (k & -> & Hk).
  cbn [exec fold_left step world calls List.app].
  match goal with
  | |- context [ [Suspended ?c] !! 0%nat ] =>
      change ([Suspended c] !! 0%nat) with (Some (Suspended c))
  end.
  cbv iota beta.
  rewrite run_fmap, run_recompute, run_fmap, Hk. cbn [settleItems].
  set (w3 := with_items _ _).
  assert (TimersTracked w3) as Htimers3 by (by eapply TimersTracked_frame, Htimers).
  destruct (run_install (ArgArray loaded) (clock (host w)) w3)
    as (w4 & -> & Hcache & Hts & Hitems4 & Hclock & _ & _ & h & Htimeout & Hpending).
  cbn [world calls].
  rewrite (TimersTracked_cleared w3 Htimers3) in Hpending.
  split; [done|]. split; [done|]. split; [done|].
  split; [by rewrite Hitems4|]. split; [by rewrite Hitems4|]. split.
  - exists h. split; [done|]. rewrite Hpending. done.
  - unfold cacheValid. rewrite Hcache, Hts, Hclock. simpl. f_equal. lia.
Qed.

(** X25.  [invalidateCache] clears the statistics and nothing else: the item
    cache, the watcher and the data file are as before, no read is started,
    and a second call changes nothing.  The listener of the watcher acts on
    [change] events only: any other event leaves the world as it is. *)
Theorem invalidateCache_idempotent (w : World) :
  let w1 := fst (complete invalidateCache w) in
  complete invalidateCache w1 = (w1, Ok tt) /\
  items_js w1 = items_js w /\
  watcher (stats_js w1) = watcher (stats_js w) /\
  watchers (host w1) = watchers (host w) /\
  reads (host w1) = reads (host w) /\
  dataFile (host w1) = dataFile (host w) /\
  console (host w1) = console (host w) /\
  (forall eventType, eventType <> "change"%string ->
     complete (onWatchEvent eventType) w = (w, Ok tt)).
Proof.
  cbn zeta. unfold invalidateCache, mbind, Async_bind. simpl.
  destruct (cacheTimeout (stats_js w)) as [t|] eqn:Ht; simpl; rewrite ?Ht;
    (split; [reflexivity|]);
    do 6 (split; [reflexivity|]);
    intros ev Hev; unfold onWatchEvent; by destruct (decide _).
Qed.

End StatsTiming.

Section TimerAndWatcher.

Import StatsService Server.

(** X26.  The timer of the statistics clears them when it is due and not
    before.  In a world the server has reached, firing a pending timer
    before its time changes nothing; firing it when due clears the
    statistics and their timestamp and leaves no timer pending, the item
    cache and the watcher being as before. *)
Theorem timer_clears_when_due (w : World) (h : nat) (due : Z) :
  reachable w ->
  timers (host w) !! h = Some due ->
  (clock (host w) < due -> fireTimer h w = w) /\
  (due <= clock (host w) ->
   statsCache (stats_js (fireTimer h w)) = None /\
   statsCacheTimestamp (stats_js (fireTimer h w)) = 0 /\
   timers (host (fireTimer h w)) = ∅ /\
   items_js (fireTimer h w) = items_js w /\
   watcher (stats_js (fireTimer h w)) = watcher (stats_js w) /\
   watchers (host (fireTimer h w)) = watchers (host w)).
Proof.
  intros Hreach Hh. pose proof (reachable_TimersTracked w Hreach) as Htimers.
  unfold fireTimer. rewrite Hh. split.
  - intros Hearly. by destruct (Z.leb_spec due (clock (host w))); [lia|].
  - intros Hdue. destruct (Z.leb_spec due (clock (host w))); [|lia]. simpl.
    repeat (split; [done|]). split; [|done].
    pose proof (TimersTracked_cleared w Htimers) as Hclear.
    by rewrite (Htimers h (mk_is_Some _ _ Hh)) in Hclear.
Qed.

(** X27.  [initFileWatcher] replaces the watcher, it does not add one.
    Where the open watchers are the one [watcher] refers to, the old one is
    closed and, [fs.watch] having succeeded, exactly one, new watcher is
    open after the call; the caches and the timers are as before. *)
Theorem initFileWatcher_replaces (w : World) :
  WatcherTracked w ->
  let w' := fst (complete initFileWatcher w) in
  watcher (stats_js w') = Some (nextHandle (host w)) /\
  watchers (host w') = {[ nextHandle (host w) ]} /\
  WatcherTracked w' /\
  statsCache (stats_js w') = statsCache (stats_js w) /\
  items_js w' = items_js w /\
  timers (host w') = timers (host w).
Proof.
  intros Hopen. unfold WatcherTracked in *. cbn zeta.
  unfold initFileWatcher, mbind, Async_bind. simpl.
  assert (forall old : nat,
    {[nextHandle (host w)]} ∪ ({[old]} ∖ {[old]}) =@{gset nat} {[nextHandle (host w)]})
    as Hclosed by (intros old; by rewrite difference_diag_L, (right_id_L ∅ (∪))).
  destruct (watcher (stats_js w)) as [old|] eqn:Hold; simpl; rewrite Hopen.
  - split; [done|]. split; [apply Hclosed|]. split; [|done].
    simpl. rewrite ?Hopen. apply Hclosed.
  - split; [done|]. split; [apply (right_id_L ∅ (∪))|]. split; [|done].
    simpl. rewrite ?Hopen. apply (right_id_L ∅ (∪)).
Qed.

End TimerAndWatcher.

Section MoreWitnesses.

Lemma coldWorld_reachable : reachable coldWorld.
Proof.
  exists (ReadResolved (ItemsJSON catalogue)), 1700000000000, []. reflexivity.
Defined.

Lemma filterItems_query_normalised_witness :
  filterItems catalogue "  LAPTOP " = filterItems catalogue "laptop".
Proof. apply (filterItems_query_normalised catalogue "  LAPTOP " "laptop"). reflexivity. Defined.

Lemma filterItems_finds_field_text_witness :
  mouse ∈ filterItems (blankItem :: catalogue) "Wireless mouse".
Proof.
  apply (filterItems_finds_field_text (blankItem :: catalogue) mouse "Wireless mouse").
  - apply list_elem_of_In. simpl. tauto.
  - right. left. reflexivity.
Defined.

Lemma filterItems_skips_textless_witness :
  textless blankItem /\ ~ textless desk.
Proof.
  split; [by repeat split|].
  apply (filterItems_skips_textless (blankItem :: catalogue) "furn" desk).
  - reflexivity.
  - apply list_elem_of_In. vm_compute. tauto.
Defined.

Lemma calculateStats_counts_categories_witness :
  categories (calculateStats (ArgArray (blankItem :: catalogue))) !! "Electronics"%string =
    Some (PNumber (ofZ 2)) /\
  categories (calculateStats (ArgArray (blankItem :: catalogue))) !! "uncategorized"%string =
    Some (PNumber (ofZ 1)) /\
  categories (calculateStats (ArgArray (blankItem :: catalogue))) !! "Toys"%string = None.
Proof.
  destruct (calculateStats_counts_categories (blankItem :: catalogue))
    as (_ & Hcounts & _).
  - repeat constructor.
  - split; [exact (Hcounts "Electronics"%string)|].
    split; [exact (Hcounts "uncategorized"%string)|exact (Hcounts "Toys"%string)].
Defined.

Lemma calculateStats_min_max_witness :
  minPrice (calculateStats (ArgArray (blankItem :: catalogue))) ∈
    parseablePrices (blankItem :: catalogue) /\
  le (minPrice (calculateStats (ArgArray (blankItem :: catalogue))))
     (maxPrice (calculateStats (ArgArray (blankItem :: catalogue)))).
Proof.
  destruct (calculateStats_min_max (blankItem :: catalogue)) as (Hmin & _ & _ & Hle).
  - vm_compute. discriminate.
  - split; [exact Hmin|exact Hle].
Defined.

Lemma calculateStats_no_price_witness :
  averagePrice (calculateStats (ArgArray [blankItem])) = ofZ 0 /\
  minPrice (calculateStats (ArgArray [blankItem])) = ofZ 0 /\
  maxPrice (calculateStats (ArgArray [blankItem])) = ofZ 0 /\
  totalItems (calculateStats (ArgArray [blankItem])) = 1%nat.
Proof.
  apply (calculateStats_no_price [blankItem]). repeat constructor.
Defined.

Lemma pages_partition_witness :
  concat (List.map
    (fun p => Handlers.items (Handlers.respond (pageRequest (Some "20"%string) None p)
                                               fortyFive))
    (seq 1 3)) = fortyFive.
Proof.
  destruct (pages_partition (Some "20"%string) None fortyFive 20 eq_refl eq_refl)
    as [_ Hall].
  exact Hall.
Defined.

Lemma respond_not_a_number_witness :
  Handlers.items (Handlers.respond
    {| Handlers.page := Some "abc"%string; Handlers.limit := None;
       Handlers.q := None |} catalogue) = [].
Proof.
  destruct (respond_not_a_number
    {| Handlers.page := Some "abc"%string; Handlers.limit := None;
       Handlers.q := None |} catalogue) as [Hnone _].
  - left. reflexivity.
  - exact Hnone.
Defined.

Lemma respond_limit_zero_witness :
  Handlers.items (Handlers.respond
    {| Handlers.page := None; Handlers.limit := Some "0"%string;
       Handlers.q := None |} catalogue) = [].
Proof.
  destruct (respond_limit_zero
    {| Handlers.page := None; Handlers.limit := Some "0"%string;
       Handlers.q := None |} catalogue eq_refl) as [Hnone _].
  exact Hnone.
Defined.

Lemma respond_nonpositive_page_witness :
  Handlers.items (Handlers.respond
    {| Handlers.page := Some "-1"%string; Handlers.limit := Some "20"%string;
       Handlers.q := None |} fortyFive) =
  firstn 20 (skipn 5 fortyFive).
Proof.
  destruct (respond_nonpositive_page
    {| Handlers.page := Some "-1"%string; Handlers.limit := Some "20"%string;
       Handlers.q := None |} fortyFive (-1) 20 eq_refl eq_refl) as (_ & _ & Hwindow).
  - lia.
  - lia.
  - apply Hwindow. lia.
Defined.

Lemma respond_blank_query_witness :
  Handlers.respond
    {| Handlers.page := None; Handlers.limit := None; Handlers.q := Some "  "%string |}
    catalogue =
  Handlers.respond
    {| Handlers.page := None; Handlers.limit := None; Handlers.q := None |} catalogue.
Proof.
  apply (respond_blank_query
    {| Handlers.page := None; Handlers.limit := None; Handlers.q := Some "  "%string |}
    catalogue "  "); reflexivity.
Defined.

Lemma respond_negative_limit_witness :
  Handlers.items (Handlers.respond
    {| Handlers.page := None; Handlers.limit := Some "-5"%string;
       Handlers.q := None |} fortyFive) = firstn 40 fortyFive.
Proof.
  destruct (respond_negative_limit
    {| Handlers.page := None; Handlers.limit := Some "-5"%string;
       Handlers.q := None |} fortyFive 1 (-5) eq_refl eq_refl) as (Hfirst & _).
  - lia.
  - lia.
  - apply Hfirst. reflexivity.
Defined.

Lemma respond_trailing_text_witness :
  Handlers.respond
    {| Handlers.page := Some "2abc"%string; Handlers.limit := Some "20px"%string;
       Handlers.q := None |} fortyFive =
  Handlers.respond
    {| Handlers.page := Some "2"%string; Handlers.limit := Some "20"%string;
       Handlers.q := None |} fortyFive.
Proof.
  apply (respond_trailing_text
    {| Handlers.page := Some "2abc"%string; Handlers.limit := Some "20px"%string;
       Handlers.q := None |} fortyFive 2 20 "abc" "px"); reflexivity.
Defined.

Lemma getItemHandler_first_with_id_witness :
  exists reply,
    complete (Handlers.getItemHandler "2") coldWorld =
      (fst (complete ItemsRoute.getItems coldWorld), Ok reply) /\
    match reply with
    | Handlers.Found item =>
        exists before after,
          catalogue = before ++ item :: after /\ id item = 2 /\
          Forall (fun i => id i <> 2) before
    | Handlers.NotFound => Forall (fun i => id i <> 2) catalogue
    end.
Proof.
  apply (getItemHandler_first_with_id 2 coldWorld
           (fst (complete ItemsRoute.getItems coldWorld)) catalogue).
  - unfold safeInteger. simpl. lia.
  - reflexivity.
Defined.

Lemma getItemHandler_not_a_number_witness :
  snd (complete (Handlers.getItemHandler "invalid") coldWorld) = Ok Handlers.NotFound.
Proof.
  rewrite (getItemHandler_not_a_number "invalid" coldWorld eq_refl). reflexivity.
Defined.

Lemma getItems_entry_dated_at_call_witness :
  let s := Server.exec itemsServer
             {| Server.world := coldWorld; Server.calls := [] |}
             [Server.Invoke tt; Server.Advance 30000;
              Server.Settle 0 (ReadResolved (ItemsJSON catalogue))] in
  itemsCache (items_js (Server.world s)) = Some catalogue /\
  ItemsRoute.cacheValid (items_js (Server.world s)) (clock (host (Server.world s))) =
    false.
Proof.
  destruct (getItems_entry_dated_at_call coldWorld 30000 catalogue eq_refl)
    as (_ & Hcache & _ & _ & Hvalid).
  split; [exact Hcache|exact Hvalid].
Defined.

Lemma getCachedStats_valid_untouched_witness :
  exists cached,
    statsCache (stats_js servedWorld) = Some cached /\
    run (StatsService.getCachedStats (Throw (mkError "not called"))) servedWorld =
      (servedWorld, Settled (Ok cached)) /\
    complete (StatsService.getCachedStats (Throw (mkError "not called"))) servedWorld =
      (servedWorld, Ok cached) /\
    run (app GetStats) servedWorld = (servedWorld, Settled (Ok (StatsBody cached))).
Proof.
  apply (getCachedStats_valid_untouched servedWorld (Throw (mkError "not called"))).
  reflexivity.
Defined.

Lemma getCachedStats_error_passes_witness :
  complete (StatsService.getCachedStats (Throw (mkError "no items"))) coldWorld =
  (coldWorld, Err (mkError "no items")).
Proof.
  apply (getCachedStats_error_passes coldWorld coldWorld
           (Throw (mkError "no items")) (mkError "no items")); reflexivity.
Defined.

Lemma load_failure_every_route_witness :
  exists w',
    complete (app GetStats) staleWorld =
      (w', Err (mkError "Failed to read items data")) /\
    items_js w' = items_js staleWorld /\ stats_js w' = stats_js staleWorld /\
    timers (host w') = timers (host staleWorld) /\
    watchers (host w') = watchers (host staleWorld) /\
    reads (host w') = S (reads (host staleWorld)).
Proof.
  apply (load_failure_every_route staleWorld GetStats).
  - reflexivity.
  - intros loaded. discriminate.
  - reflexivity.
Defined.

Lemma reachable_one_watcher_one_timer_witness :
  size (watchers (host servedWorld)) = 1%nat /\
  size (timers (host servedWorld)) = 1%nat /\
  (size (watchers (host servedWorld)) <= 1)%nat /\
  (size (timers (host servedWorld)) <= 1)%nat.
Proof.
  split; [reflexivity|]. split; [reflexivity|].
  destruct (reachable_one_watcher_one_timer servedWorld servedWorld_reachable)
    as (Hwatchers & Htimers & _).
  split; [exact Hwatchers|exact Htimers].
Defined.

Lemma stats_after_file_change_witness :
  let w1 := Server.world (Server.step app
              {| Server.world := servedWorld; Server.calls := [] |}
              (Server.FileChanged (ReadResolved (ItemsJSON [desk])))) in
  statsCache (stats_js w1) = None /\
  exists w2,
    run (app GetStats) w1 =
      (w2, Settled (Ok (StatsBody (calculateStats (ArgArray catalogue))))) /\
    reads (host w2) = reads (host servedWorld).
Proof.
  destruct (stats_after_file_change servedWorld (ReadResolved (ItemsJSON [desk]))
              catalogue servedWorld_reachable)
    as (Hnone & _ & _ & _ & Hnext).
  - vm_compute. discriminate.
  - reflexivity.
  - reflexivity.
  - split; [exact Hnone|exact Hnext].
Defined.

Lemma getStats_dated_at_call_witness :
  let s := Server.exec app {| Server.world := coldWorld; Server.calls := [] |}
             [Server.Invoke GetStats; Server.Advance 1000;
              Server.Settle 0 (ReadResolved (ItemsJSON catalogue))] in
  statsCacheTimestamp (stats_js (Server.world s)) = 1700000000000 /\
  exists h, cacheTimeout (stats_js (Server.world s)) = Some h /\
    timers (host (Server.world s)) = {[ h := 1700000061000 ]}.
Proof.
  destruct (getStats_dated_at_call coldWorld 1000 catalogue coldWorld_reachable)
    as (_ & _ & Hts & _ & _ & Htimer & _).
  - split; reflexivity.
  - split; [exact Hts|exact Htimer].
Defined.

Lemma timer_clears_when_due_witness :
  let w := with_host (Server.advance 60000) servedWorld in
  Server.fireTimer 1 servedWorld = servedWorld /\
  statsCache (stats_js (Server.fireTimer 1 w)) = None /\
  timers (host (Server.fireTimer 1 w)) = ∅.
Proof.
  cbn zeta. split.
  - destruct (timer_clears_when_due servedWorld 1 1700000060000
                servedWorld_reachable eq_refl) as [Hearly _].
    apply Hearly. reflexivity.
  - assert (reachable (with_host (Server.advance 60000) servedWorld)) as Hreach.
    { eexists _, _, _.
      exact (eq_refl (Server.world (Server.exec app
        {| Server.world := initialWorld (ReadResolved (ItemsJSON catalogue))
                             1700000000000;
           Server.calls := [] |}
        [Server.Invoke GetStats;
         Server.Settle 0 (ReadResolved (ItemsJSON catalogue));
         Server.Advance 60000]))). }
    destruct (timer_clears_when_due _ 1 1700000060000 Hreach eq_refl) as [_ Hdue].
    destruct Hdue as (Hnone & _ & Hempty & _).
    + discriminate.
    + split; [exact Hnone|exact Hempty].
Defined.

Lemma initFileWatcher_replaces_witness :
  let w' := fst (complete StatsService.initFileWatcher servedWorld) in
  watchers (host servedWorld) = {[ 0%nat ]} /\
  watchers (host w') = {[ 2%nat ]}.
Proof.
  cbn zeta. split; [reflexivity|].
  destruct (initFileWatcher_replaces servedWorld
              (reachable_WatcherTracked servedWorld servedWorld_reachable))
    as (_ & Hone & _).
  exact Hone.
Defined.

End MoreWitnesses.
